(** * satto-receipt: the encrypted local vault and its CSV interchange layer

    A shallow embedding of [src/lib/csv.ts], [src/lib/csvImport.ts],
    [src/lib/crypto.ts], [src/lib/db.ts] and of the session handlers of
    [src/App.tsx], with the properties the specification states about them.

    Conventions.
    - A JavaScript string is the sequence of its UTF-16 code units; a code
      unit is an [N].  [str] turns a literal into such a sequence.
    - A JavaScript number is a binary64 value, kept as an exact dyadic
      rational [m * 2^e] (module [Num]).
    - Code that reads the clock, draws random values or talks to the storage
      of the browser threads an explicit [Browser]; a handler of the page
      threads a [Page], the browser with the React state.
    - WebCrypto, [JSON], the UTF-8 codec and base64 are parameters
      ([Platform]). *)

From Stdlib Require Import List String Ascii Bool Arith NArith ZArith Lia.
Import ListNotations.

Set Implicit Arguments.

(** ** JavaScript strings *)

Definition code_unit := N.
Definition jsstring := list code_unit.

(** The code units of a literal, which Rocq holds as UTF-8 bytes. *)
Fixpoint utf16_of_utf8 (bs : list N) : jsstring :=
  match bs with
  | [] => []
  | b0 :: bs1 =>
      if (b0 <? 128)%N then b0 :: utf16_of_utf8 bs1
      else
        match bs1 with
        | [] => [b0]
        | b1 :: bs2 =>
            if (b0 <? 224)%N then
              ((b0 - 192) * 64 + (b1 - 128))%N :: utf16_of_utf8 bs2
            else
              match bs2 with
              | [] => [b0; b1]
              | b2 :: bs3 =>
                  if (b0 <? 240)%N then
                    ((b0 - 224) * 4096 + (b1 - 128) * 64 + (b2 - 128))%N
                      :: utf16_of_utf8 bs3
                  else
                    match bs3 with
                    | [] => [b0; b1; b2]
                    | b3 :: bs4 =>
                        let cp := ((b0 - 240) * 262144 + (b1 - 128) * 4096
                                   + (b2 - 128) * 64 + (b3 - 128))%N in
                        (55296 + (cp - 65536) / 1024)%N
                          :: (56320 + (cp - 65536) mod 1024)%N
                          :: utf16_of_utf8 bs4
                    end
              end
        end
  end.

Definition str (s : string) : jsstring :=
  utf16_of_utf8 (map N_of_ascii (list_ascii_of_string s)).

Definition QUOTE : code_unit := 34%N.   (* the double quote *)
Definition COMMA : code_unit := 44%N.   (* the comma *)
Definition LF : code_unit := 10%N.      (* the line feed *)

Definition jsstring_eqb (a b : jsstring) : bool :=
  if list_eq_dec N.eq_dec a b then true else false.

Module JS.

(** [s.includes(c)] for a one-unit needle. *)
Definition includes_unit (s : jsstring) (c : code_unit) : bool :=
  existsb (N.eqb c) s.

Fixpoint startsWith (s needle : jsstring) : bool :=
  match needle, s with
  | [], _ => true
  | _ :: _, [] => false
  | n :: needle', c :: s' => N.eqb n c && startsWith s' needle'
  end.

(** [s.includes(needle)]. *)
Fixpoint includes (s needle : jsstring) : bool :=
  startsWith s needle ||
  match s with
  | [] => false
  | _ :: s' => includes s' needle
  end.

(** [s.replace(/c/g, by)]. *)
Definition replaceAll_unit (s : jsstring) (c : code_unit) (by_ : jsstring)
  : jsstring :=
  flat_map (fun x => if N.eqb x c then by_ else [x]) s.

(** [parts.join(sep)]. *)
Fixpoint join (sep : jsstring) (parts : list jsstring) : jsstring :=
  match parts with
  | [] => []
  | [p] => p
  | p :: rest => p ++ sep ++ join sep rest
  end.

(** [s.split(c)] for a one-unit separator: never empty. *)
Fixpoint split_unit (c : code_unit) (s : jsstring) : list jsstring :=
  match s with
  | [] => [[]]
  | x :: s' =>
      match split_unit c s' with
      | [] => [[]]   (* unreachable *)
      | cur :: rest =>
          if N.eqb x c then [] :: cur :: rest else (x :: cur) :: rest
      end
  end.

(** WhiteSpace and LineTerminator code units, as [String.prototype.trim]
    removes them (ECMAScript 22.1.3.32). *)
Definition isWhiteSpace (c : code_unit) : bool :=
  ((9 <=? c) && (c <=? 13) || (c =? 32) || (c =? 160) || (c =? 5760)
   || (8192 <=? c) && (c <=? 8202) || (c =? 8232) || (c =? 8233)
   || (c =? 8239) || (c =? 8287) || (c =? 12288) || (c =? 65279))%N.

Fixpoint trimStart (s : jsstring) : jsstring :=
  match s with
  | [] => []
  | c :: s' => if isWhiteSpace c then trimStart s' else s
  end.

Definition trimEnd (s : jsstring) : jsstring := rev (trimStart (rev s)).

Definition trim (s : jsstring) : jsstring := trimEnd (trimStart s).

(** [s.toLowerCase()] on the letters A-Z.  Code units outside ASCII are
    left as they are; none of them lower-cases to a letter of the word store,
    the only text the result is searched for. *)
Definition toLowerCase (s : jsstring) : jsstring :=
  map (fun c => if (65 <=? c) && (c <=? 90) then c + 32 else c)%N s.

(** [s.slice(0, n)]. *)
Definition slice0 (n : nat) (s : jsstring) : jsstring := firstn n s.

(** ToBoolean of a string. *)
Definition truthy_string (s : jsstring) : bool :=
  match s with [] => false | _ => true end.

End JS.

(** ** JavaScript numbers

    A number is a binary64 value.  A finite one is kept as the exact dyadic
    rational [m * 2^e] in canonical form ([m] odd, or [m = 0] and [e = 0]), so
    that two finite numbers are the same value exactly when they are equal
    terms; the sign is kept apart, which gives the two zeros. *)

Inductive number : Type :=
| NaN
| Infinity (negative : bool)
| Finite (negative : bool) (m : N) (e : Z).

Module Num.

Local Open Scope Z_scope.

Definition zero : number := Finite false 0%N 0.

(** Canonical form of [m * 2^e] for [m >= 0]. *)
Definition canon (negative : bool) (m e : Z) : number :=
  if m =? 0 then Finite negative 0%N 0
  else
    let t := Z.log2 (Z.land m (- m)) in
    Finite negative (Z.to_N (Z.shiftr m t)) (e + t).

(** Round the positive rational [a / b] to the nearest binary64 value, ties
    to even (IEEE 754 roundTiesToEven, as ECMAScript prescribes). *)
Definition round64 (negative : bool) (a b : Z) : number :=
  let e0 := Z.log2 a - Z.log2 b in
  (* floor (log2 (a/b)) is e0 or e0 - 1 *)
  let ge := if 0 <=? e0 then b * 2 ^ e0 <=? a else b <=? a * 2 ^ (- e0) in
  let ex := if ge then e0 else e0 - 1 in
  if 1024 <=? ex then Infinity negative
  else
    let t := Z.max (ex - 52) (-1074) in          (* exponent of the last bit *)
    let num := if 0 <=? t then a else a * 2 ^ (- t) in
    let den := if 0 <=? t then b * 2 ^ t else b in
    let q := num / den in
    let r := num mod den in
    let m := if (den <? 2 * r) then q + 1
             else if (den =? 2 * r) then (if Z.odd q then q + 1 else q)
             else q in
    if (t =? 971) && (2 ^ 53 <=? m) then Infinity negative
    else canon negative m t.

(** The number of a natural-number literal. *)
Definition of_N (n : N) : number :=
  match n with
  | N0 => zero
  | Npos _ => round64 false (Z.of_N n) 1
  end.

(** ToBoolean: NaN and the two zeros are falsy. *)
Definition truthy (x : number) : bool :=
  match x with
  | NaN => false
  | Infinity _ => true
  | Finite _ m _ => negb (N.eqb m 0)
  end.

(** [x || y] on numbers. *)
Definition or_else (x y : number) : number := if truthy x then x else y.

(** Number::multiply. *)
Definition mul (x y : number) : number :=
  match x, y with
  | NaN, _ | _, NaN => NaN
  | Infinity s, Infinity s' => Infinity (xorb s s')
  | Infinity s, Finite s' m _ | Finite s' m _, Infinity s =>
      if N.eqb m 0 then NaN else Infinity (xorb s s')
  | Finite s m e, Finite s' m' e' =>
      let p := Z.of_N m * Z.of_N m' in
      let ex := e + e' in
      if p =? 0 then Finite (xorb s s') 0%N 0
      else if 0 <=? ex then round64 (xorb s s') (p * 2 ^ ex) 1
      else round64 (xorb s s') p (2 ^ (- ex))
  end.

(** *** StringToNumber (ECMAScript 7.1.4.1.1) *)

Definition digit_of (base : N) (c : code_unit) : option N :=
  let d :=
    if (48 <=? c)%N && (c <=? 57)%N then Some (c - 48)%N
    else if (97 <=? c)%N && (c <=? 102)%N then Some (c - 87)%N
    else if (65 <=? c)%N && (c <=? 70)%N then Some (c - 55)%N
    else None in
  match d with
  | Some v => if (v <? base)%N then Some v else None
  | None => None
  end.

(** Reads the longest run of digits: its value so far, how many digits
    were read, and the rest. *)
Fixpoint digits (base : N) (s : jsstring) (acc : N) (count : nat)
  : N * nat * jsstring :=
  match s with
  | [] => (acc, count, [])
  | c :: s' =>
      match digit_of base c with
      | Some d => digits base s' (acc * base + d)%N (S count)
      | None => (acc, count, s)
      end
  end.

Definition sign_prefix (s : jsstring) : bool * jsstring :=
  match s with
  | 43%N :: s' => (false, s')
  | 45%N :: s' => (true, s')
  | _ => (false, s)
  end.

(** ExponentPart, when present; [None] when what is left is no exponent. *)
Definition exponent_part (s : jsstring) : option Z :=
  match s with
  | [] => Some 0
  | c :: s' =>
      if (c =? 101)%N || (c =? 69)%N then
        let '(neg, s'') := sign_prefix s' in
        match digits 10 s'' 0%N 0%nat with
        | (_, O, _) => None
        | (v, S _, []) => Some (if neg then - Z.of_N v else Z.of_N v)
        | (_, S _, _ :: _) => None
        end
      else None
  end.

Definition decimal_value (negative : bool) (mant : N) (exp10 : Z) : number :=
  if (mant =? 0)%N then Finite negative 0%N 0
  else if 0 <=? exp10 then round64 negative (Z.of_N mant * 10 ^ exp10) 1
  else round64 negative (Z.of_N mant) (10 ^ (- exp10)).

Definition str_decimal (s : jsstring) : number :=
  let '(neg, body) := sign_prefix s in
  if jsstring_eqb body (str "Infinity") then Infinity neg
  else
    let '(ip, ni, after_int) := digits 10 body 0%N 0%nat in
    match after_int with
    | 46%N :: after_dot =>
        let '(mant, nf, after_frac) := digits 10 after_dot ip 0%nat in
        match ni, nf with
        | O, O => NaN
        | _, _ =>
            match exponent_part after_frac with
            | Some ex => decimal_value neg mant (ex - Z.of_nat nf)
            | None => NaN
            end
        end
    | _ =>
        match ni with
        | O => NaN
        | S _ =>
            match exponent_part after_int with
            | Some ex => decimal_value neg ip ex
            | None => NaN
            end
        end
    end.

Definition non_decimal (base : N) (s : jsstring) : number :=
  match digits base s 0%N 0%nat with
  | (v, S _, []) =>
      if (v =? 0)%N then zero else round64 false (Z.of_N v) 1
  | _ => NaN
  end.

Definition of_string (s : jsstring) : number :=
  match JS.trim s with
  | [] => zero
  | (48%N :: c :: rest) as t =>
      if (c =? 120)%N || (c =? 88)%N then non_decimal 16 rest
      else if (c =? 111)%N || (c =? 79)%N then non_decimal 8 rest
      else if (c =? 98)%N || (c =? 66)%N then non_decimal 2 rest
      else str_decimal t
  | t => str_decimal t
  end.

(** *** Number::toString, radix 10 (ECMAScript 6.1.6.1.20) *)

Fixpoint units_of_uint (d : Decimal.uint) : jsstring :=
  match d with
  | Decimal.Nil => []
  | Decimal.D0 d' => 48%N :: units_of_uint d'
  | Decimal.D1 d' => 49%N :: units_of_uint d'
  | Decimal.D2 d' => 50%N :: units_of_uint d'
  | Decimal.D3 d' => 51%N :: units_of_uint d'
  | Decimal.D4 d' => 52%N :: units_of_uint d'
  | Decimal.D5 d' => 53%N :: units_of_uint d'
  | Decimal.D6 d' => 54%N :: units_of_uint d'
  | Decimal.D7 d' => 55%N :: units_of_uint d'
  | Decimal.D8 d' => 56%N :: units_of_uint d'
  | Decimal.D9 d' => 57%N :: units_of_uint d'
  end.

(** The decimal digits of a natural number, most significant first. *)
Definition decimal (n : Z) : jsstring := units_of_uint (N.to_uint (Z.to_N n)).

(** The positive value [m * 2^e] as a fraction. *)
Definition frac_of (m : N) (e : Z) : Z * Z :=
  if 0 <=? e then (Z.of_N m * 2 ^ e, 1) else (Z.of_N m, 2 ^ (- e)).

(** [n] with [10^(n-1) <= a/b < 10^n], for a binary64 value [a/b > 0]. *)
Definition magnitude (a b : Z) : Z :=
  Z.of_nat (List.length (decimal (a * 10 ^ 400 / b))) - 400.

(** [floor ((a/b) / 10^p)]. *)
Definition scaled_floor (a b p : Z) : Z :=
  if 0 <=? p then a / (b * 10 ^ p) else a * 10 ^ (- p) / b.

(** Does the decimal [s * 10^p] denote the binary64 value [x]? *)
Definition denotes (s p : Z) (x : number) : bool :=
  match x, decimal_value false (Z.to_N s) p with
  | Finite _ m e, Finite _ m' e' => N.eqb m m' && (e =? e')
  | _, _ => false
  end.

(** Is [lo * 10^p] at least as close to [a/b] as [(lo+1) * 10^p], with the
    tie going to the even one? *)
Definition lower_is_closer (a b lo p : Z) : bool :=
  (* compare 2 * (a/b) / 10^p with 2 * lo + 1 *)
  let lhs := if 0 <=? p then 2 * a else 2 * a * 10 ^ (- p) in
  let rhs := if 0 <=? p then (2 * lo + 1) * b * 10 ^ p else (2 * lo + 1) * b in
  (lhs <? rhs) || ((lhs =? rhs) && Z.even lo).

(** Step 5: the shortest [s] (with [k] digits) and the [n] for which
    [s * 10^(n-k)] denotes [x]; [k] runs from [k0] for [fuel] rounds. *)
Fixpoint shortest (x : number) (a b n0 : Z) (k : Z) (fuel : nat) : Z * Z * Z :=
  let p := n0 - k in
  let lo := scaled_floor a b p in
  let ok_lo := denotes lo p x in
  let ok_hi := denotes (lo + 1) p x in
  let pick (s : Z) := if s =? 10 ^ k then (1, 1, n0 + 1) else (s, k, n0) in
  if ok_lo && ok_hi then pick (if lower_is_closer a b lo p then lo else lo + 1)
  else if ok_lo then pick lo
  else if ok_hi then pick (lo + 1)
  else
    match fuel with
    | O => (lo, k, n0)
    | S fuel' => shortest x a b n0 (k + 1) fuel'
    end.

Definition zeros (n : Z) : jsstring := repeat 48%N (Z.to_nat n).

Definition format (s k n : Z) : jsstring :=
  let ds := decimal s in
  let exponent :=
    101%N :: (if 0 <=? n - 1 then 43%N else 45%N) :: decimal (Z.abs (n - 1)) in
  if (k <=? n) && (n <=? 21) then ds ++ zeros (n - k)
  else if (0 <? n) && (n <=? 21) then
    firstn (Z.to_nat n) ds ++ 46%N :: skipn (Z.to_nat n) ds
  else if (-6 <? n) && (n <=? 0) then
    48%N :: 46%N :: zeros (- n) ++ ds
  else if k =? 1 then ds ++ exponent
  else firstn 1 ds ++ 46%N :: skipn 1 ds ++ exponent.

Definition to_string (x : number) : jsstring :=
  match x with
  | NaN => str "NaN"
  | Infinity negative =>
      (if negative then [45%N] else []) ++ str "Infinity"
  | Finite negative m e =>
      if N.eqb m 0 then [48%N]
      else
        let '(a, b) := frac_of m e in
        let '(s, k, n) := shortest x a b (magnitude a b) 1 16 in
        (if negative then [45%N] else []) ++ format s k n
  end.

End Num.

(** ** csvImport.ts: parseCsvLine *)

(** The [for] loop of [parseCsvLine], on the units still to read.  The
    branch that sees two quotes in a row consumes both ([i++]). *)
Fixpoint parseCsvLine_loop (line : jsstring) (result : list jsstring)
         (current : jsstring) (inQuotes : bool) : list jsstring :=
  match line with
  | [] => result ++ [current]
  | char :: rest =>
      match rest with
      | next :: rest' =>
          if N.eqb char QUOTE && N.eqb next QUOTE then
            parseCsvLine_loop rest' result (current ++ [QUOTE]) inQuotes
          else if N.eqb char QUOTE then
            parseCsvLine_loop rest result current (negb inQuotes)
          else if N.eqb char COMMA && negb inQuotes then
            parseCsvLine_loop rest (result ++ [current]) [] inQuotes
          else
            parseCsvLine_loop rest result (current ++ [char]) inQuotes
      | [] =>
          if N.eqb char QUOTE then
            parseCsvLine_loop rest result current (negb inQuotes)
          else if N.eqb char COMMA && negb inQuotes then
            parseCsvLine_loop rest (result ++ [current]) [] inQuotes
          else
            parseCsvLine_loop rest result (current ++ [char]) inQuotes
      end
  end.

Definition parseCsvLine (line : jsstring) : list jsstring :=
  parseCsvLine_loop line [] [] false.

(** ** types.ts *)

Module LineItem.
Record t : Type := mk {
  id : jsstring;
  name : jsstring;
  category : jsstring;
  price : number;
  quantity : number
}.
End LineItem.

Module Receipt.
(** An optional property ([category?], [tax?], [note?], [imageData?]) is
    an [option]: absent and [undefined] are the same reading. *)
Record t : Type := mk {
  id : jsstring;
  storeName : jsstring;
  visitedAt : jsstring;
  total : number;
  category : option jsstring;
  tax : option number;
  note : option jsstring;
  imageData : option jsstring;
  lineItems : list LineItem.t;
  createdAt : jsstring;
  updatedAt : jsstring
}.
End Receipt.

Module Category.
Record t : Type := mk {
  id : jsstring;
  name : jsstring;
  color : jsstring
}.
End Category.

Module Vault.
Record t : Type := mk {
  receipts : list Receipt.t;
  categories : list Category.t
}.
End Vault.

(** ** csv.ts *)

(** The values a cell is built from. *)
Inductive jsvalue : Type :=
| VUndefined
| VNull
| VString (s : jsstring)
| VNumber (x : number).

(** [String(value)]. *)
Definition String_of (value : jsvalue) : jsstring :=
  match value with
  | VUndefined => str "undefined"
  | VNull => str "null"
  | VString s => s
  | VNumber x => Num.to_string x
  end.

Definition needsQuoting (s : jsstring) : bool :=
  JS.includes_unit s QUOTE || JS.includes_unit s COMMA || JS.includes_unit s LF.

Definition escapeCell (value : jsvalue) : jsstring :=
  let s := match value with
           | VUndefined | VNull => []
           | _ => String_of value
           end in
  if needsQuoting s
  then QUOTE :: JS.replaceAll_unit s QUOTE [QUOTE; QUOTE] ++ [QUOTE]
  else s.

(** [x ?? ''] on an optional string. *)
Definition orEmpty (x : option jsstring) : jsstring :=
  match x with Some s => s | None => [] end.

Definition header : list jsvalue :=
  map (fun s => VString (str s))
    ["date"; "store"; "store_category"; "item_name"; "item_category";
     "quantity"; "unit_price"; "subtotal"; "receipt_total"; "note"]%string.

(** The callback of [receipts.flatMap]: the rows of one receipt. *)
Definition receiptRows (receipt : Receipt.t) : list (list jsvalue) :=
  match Receipt.lineItems receipt with
  | [] =>
      [[VString (Receipt.visitedAt receipt);
        VString (Receipt.storeName receipt);
        VString (orEmpty (Receipt.category receipt));
        VString []; VString []; VString []; VString []; VString [];
        VNumber (Receipt.total receipt);
        VString (orEmpty (Receipt.note receipt))]]
  | items =>
      map (fun line =>
             [VString (Receipt.visitedAt receipt);
              VString (Receipt.storeName receipt);
              VString (orEmpty (Receipt.category receipt));
              VString (LineItem.name line);
              VString (LineItem.category line);
              VNumber (LineItem.quantity line);
              VNumber (LineItem.price line);
              VNumber (Num.mul (LineItem.price line) (LineItem.quantity line));
              VNumber (Receipt.total receipt);
              VString (orEmpty (Receipt.note receipt))])
          items
  end.

Definition csvRows (receipts : list Receipt.t) : list (list jsvalue) :=
  header :: flat_map receiptRows receipts.

Definition toCsv (receipts : list Receipt.t) : jsstring :=
  JS.join [LF] (map (fun row => JS.join [COMMA] (map escapeCell row))
                    (csvRows receipts)).

(** ** Effects

    A computation runs on a state and either returns or throws; the state it
    leaves behind is kept in both cases, as a rejected promise keeps the
    writes made before the rejection. *)

Inductive error : Type :=
| TypeError               (* a property read on undefined *)
| AuthenticationError     (* crypto.subtle.decrypt rejects: the tag does not verify *)
| SyntaxError             (* JSON.parse *)
| InvalidCharacterError   (* atob *)
| StorageError.           (* a failed IndexedDB request *)

Definition M (S A : Type) : Type := S -> (error + A) * S.

Definition ret {S A} (a : A) : M S A := fun s => (inr a, s).

Definition throw {S A} (e : error) : M S A := fun s => (inl e, s).

Definition bind {S A B} (c : M S A) (k : A -> M S B) : M S B :=
  fun s =>
    match c s with
    | (inl e, s') => (inl e, s')
    | (inr a, s') => k a s'
    end.

Declare Scope js_scope.
Delimit Scope js_scope with js.
Notation "x <- c ;; k" := (bind c (fun x => k))
  (at level 61, c at next level, right associativity) : js_scope.
Notation "c ;;; k" := (bind c (fun _ => k))
  (at level 61, right associativity) : js_scope.
Open Scope js_scope.

(** [xs.map(f)] for an effectful callback, left to right. *)
Fixpoint mapM {S A B} (f : A -> M S B) (xs : list A) : M S (list B) :=
  match xs with
  | [] => ret []
  | x :: xs' => y <- f x ;; ys <- mapM f xs' ;; ret (y :: ys)
  end.

(** [try { body } catch { handler }]. *)
Definition try_catch {S A} (body : M S A) (handler : error -> M S A) : M S A :=
  fun s =>
    match body s with
    | (inl e, s') => handler e s'
    | (inr a, s') => (inr a, s')
    end.

(** [try { body } finally { final }]. *)
Definition try_finally {S A} (body : M S A) (final : M S unit) : M S A :=
  fun s =>
    match body s with
    | (r, s') =>
        match final s' with
        | (inl e, s'') => (inl e, s'')
        | (inr _, s'') => (r, s'')
        end
    end.

(** The persisted form of the vault (types.ts). *)
Module VaultRecord.
Record t : Type := mk {
  id : jsstring;                 (* always the text data *)
  ciphertext : list Byte.byte;
  iv : list Byte.byte;
  version : N
}.
End VaultRecord.

(** What the page sees of the browser: the clock, the two random sources,
    the salt item of localStorage and the object store [vault] (its records
    by key), with the outcome of each IndexedDB request still to come
    ([true]: the request fails). *)
Record Browser : Type := mkBrowser {
  clock : nat -> jsstring;
  uuids : nat -> jsstring;
  entropy : nat -> Byte.byte;
  salt_item : option jsstring;
  vault_store : jsstring -> option VaultRecord.t;
  idb_faults : nat -> bool
}.

Definition shift {A} (s : nat -> A) : nat -> A := fun n => s (S n).

(** [new Date().toISOString()]. *)
Definition Date_now_toISOString : M Browser jsstring :=
  fun w => (inr (clock w 0),
            mkBrowser (shift (clock w)) (uuids w) (entropy w) (salt_item w)
                      (vault_store w) (idb_faults w)).

(** [crypto.randomUUID()]. *)
Definition randomUUID : M Browser jsstring :=
  fun w => (inr (uuids w 0),
            mkBrowser (clock w) (shift (uuids w)) (entropy w) (salt_item w)
                      (vault_store w) (idb_faults w)).

(** ** csvImport.ts: importCsvToReceipts *)

Module Row.
Record t : Type := mk {
  date : jsstring;
  store : jsstring;
  total : number;
  note : option jsstring
}.
End Row.

(** [Number(cols[6] ?? cols[2] ?? 0) || 0]. *)
Definition rowTotal (cols : list jsstring) : number :=
  Num.or_else
    (match nth_error cols 6 with
     | Some c => Num.of_string c
     | None =>
         match nth_error cols 2 with
         | Some c => Num.of_string c
         | None => Num.zero
         end
     end)
    Num.zero.

(** The callback of [dataLines.map]. *)
Definition parseRow (line : jsstring) : Row.t :=
  let cols := parseCsvLine line in
  let date := match nth_error cols 0 with Some c => c | None => [] end in
  let store := match nth_error cols 1 with Some c => c | None => [] end in
  let total := rowTotal cols in
  let note := match nth_error cols 7 with
              | Some c => if JS.truthy_string c then Some c else None
              | None => None
              end in
  Row.mk date store total note.

Definition rowKey (row : Row.t) : jsstring :=
  Row.date row ++ str "||" ++ Row.store row ++ str "||"
  ++ Num.to_string (Row.total row) ++ str "||" ++ orEmpty (Row.note row).

(** A [Map<string, Row>]: its entries in insertion order. *)
Definition RowMap := list (jsstring * Row.t).

Definition map_has (m : RowMap) (key : jsstring) : bool :=
  existsb (fun kv => jsstring_eqb (fst kv) key) m.

Fixpoint map_set (m : RowMap) (key : jsstring) (row : Row.t) : RowMap :=
  match m with
  | [] => [(key, row)]
  | (k, v) :: m' =>
      if jsstring_eqb k key then (k, row) :: m' else (k, v) :: map_set m' key row
  end.

Definition map_values (m : RowMap) : list Row.t := map snd m.

(** The [rows.forEach] that fills the map. *)
Definition groupRows (rows : list Row.t) : RowMap :=
  fold_left
    (fun m row =>
       let key := rowKey row in
       if map_has m key then m else map_set m key row)
    rows [].

(** The non-blank lines of the text, trimmed. *)
Definition csvLines (csv : jsstring) : list jsstring :=
  filter JS.truthy_string (map JS.trim (JS.split_unit LF csv)).

Definition dataLinesOf (lines : list jsstring) (line0 : jsstring)
  : list jsstring :=
  let header := JS.toLowerCase line0 in
  if JS.includes header (str "store") then skipn 1 lines else lines.

(** The callback of the final [map]: one Receipt from one kept row. *)
Definition receiptOfRow (row : Row.t) : M Browser Receipt.t :=
  now <- Date_now_toISOString ;;
  id <- randomUUID ;;
  ret (Receipt.mk
         id
         (if JS.truthy_string (Row.store row) then Row.store row
          else str "インポート")
         (if JS.truthy_string (Row.date row) then Row.date row
          else JS.slice0 10 now)
         (Row.total row)
         None
         None
         (Row.note row)
         None
         []
         now
         now).

Definition importCsvToReceipts (csv : jsstring) : M Browser (list Receipt.t) :=
  let lines := csvLines csv in
  if Nat.eqb (List.length lines) 0 then ret []
  else
    match nth_error lines 0 with
    | None => throw TypeError      (* lines[0].toLowerCase() on undefined *)
    | Some line0 =>
        let dataLines := dataLinesOf lines line0 in
        let rows := map parseRow dataLines in
        let map := groupRows rows in
        mapM receiptOfRow (map_values map)
    end.

(** ** The platform below crypto.ts

    WebCrypto, [JSON], [TextEncoder]/[TextDecoder] and [btoa]/[atob] are not
    code of this repository: the development is stated over any
    implementation of them, and each theorem names the laws it needs. *)

Class Platform : Type := {
  CryptoKey : Type;
  (** [importKey] of the raw password, then [deriveKey] with PBKDF2 and
      SHA-256 to an AES-GCM key of 256 bits. *)
  PBKDF2_SHA256_AES256 :
    list Byte.byte -> list Byte.byte -> N -> CryptoKey;
  (** [crypto.subtle.encrypt({name: AES-GCM, iv}, key, data)]. *)
  AES_GCM_encrypt : CryptoKey -> list Byte.byte -> list Byte.byte -> list Byte.byte;
  (** [crypto.subtle.decrypt]; [None] when the tag does not verify. *)
  AES_GCM_decrypt :
    CryptoKey -> list Byte.byte -> list Byte.byte -> option (list Byte.byte);
  JSON_stringify : Vault.t -> jsstring;
  (** [JSON.parse(text) as Vault]; [None] when the text is no JSON. *)
  JSON_parse : jsstring -> option Vault.t;
  TextEncoder_encode : jsstring -> list Byte.byte;
  TextDecoder_decode : list Byte.byte -> jsstring;
  (** [btoa] and [atob]; [None] when they throw. *)
  btoa : jsstring -> option jsstring;
  atob : jsstring -> option jsstring
}.

(** The laws of the platform that the theorems call on. *)
Section PlatformLaws.
Context {P : Platform}.

(** Decryption under the key and nonce of the encryption returns the data. *)
Definition aes_gcm_correct : Prop :=
  forall key iv data,
    AES_GCM_decrypt key iv (AES_GCM_encrypt key iv data) = Some data.

(** The ideal authenticated cipher: under another key the tag of a
    ciphertext never verifies. *)
Definition aes_gcm_authentic : Prop :=
  forall key1 key2 iv data,
    key1 <> key2 ->
    AES_GCM_decrypt key2 iv (AES_GCM_encrypt key1 iv data) = None.

(** The vault survives [JSON.stringify], UTF-8 and [JSON.parse]. *)
Definition json_serializable (v : Vault.t) : Prop :=
  TextDecoder_decode (TextEncoder_encode (JSON_stringify v)) = JSON_stringify v
  /\ JSON_parse (JSON_stringify v) = Some v.

(** [atob] undoes [btoa] on a text of byte-sized units, and the base64
    text of some bytes is not empty. *)
Definition base64_correct : Prop :=
  forall bs : list Byte.byte,
    bs <> [] ->
    exists t,
      btoa (map Byte.to_N bs) = Some t /\ t <> [] /\
      atob t = Some (map Byte.to_N bs).
End PlatformLaws.

(** ** crypto.ts *)

Definition set_salt_item (w : Browser) (v : option jsstring) : Browser :=
  mkBrowser (clock w) (uuids w) (entropy w) v (vault_store w) (idb_faults w).

(** [crypto.getRandomValues(new Uint8Array(n))]. *)
Definition getRandomValues (n : nat) : M Browser (list Byte.byte) :=
  fun w => (inr (map (entropy w) (seq 0 n)),
            mkBrowser (clock w) (uuids w) (fun i => entropy w (n + i))
                      (salt_item w) (vault_store w) (idb_faults w)).

(** [new Uint8Array(units)]: each element modulo 256. *)
Definition byte_of_unit (c : code_unit) : Byte.byte :=
  match Byte.of_N (c mod 256) with
  | Some b => b
  | None => Byte.x00
  end.

Section Crypto.
Context {P : Platform}.

Definition iterations : N := 200000.

Definition bytesToBase64 (bytes : list Byte.byte) : M Browser jsstring :=
  match btoa (map Byte.to_N bytes) with
  | Some t => ret t
  | None => throw InvalidCharacterError
  end.

Definition base64ToBytes (value : jsstring) : M Browser (list Byte.byte) :=
  match atob value with
  | Some t => ret (map byte_of_unit t)
  | None => throw InvalidCharacterError
  end.

Definition getOrCreateSalt : M Browser (list Byte.byte) :=
  fun w =>
    match salt_item w with
    | Some (c :: stored) => base64ToBytes (c :: stored) w
    | _ =>
        (salt <- getRandomValues 16 ;;
         encoded <- bytesToBase64 salt ;;
         (fun w' => (inr tt, set_salt_item w' (Some encoded))) ;;;
         ret salt) w
    end.

Definition deriveKey (passphrase : jsstring) (salt : list Byte.byte)
  : M Browser CryptoKey :=
  let normalizedSalt := salt in
  ret (PBKDF2_SHA256_AES256 (TextEncoder_encode passphrase) normalizedSalt
                            iterations).

Definition encryptVault (vault : Vault.t) (key : CryptoKey)
  : M Browser (list Byte.byte * list Byte.byte) :=
  iv <- getRandomValues 12 ;;
  let data := TextEncoder_encode (JSON_stringify vault) in
  let ciphertext := AES_GCM_encrypt key iv data in
  ret (ciphertext, iv).

Definition decryptVault (ciphertext iv : list Byte.byte) (key : CryptoKey)
  : M Browser Vault.t :=
  let ivBuffer := iv in
  match AES_GCM_decrypt key ivBuffer ciphertext with
  | None => throw AuthenticationError
  | Some decrypted =>
      let json := TextDecoder_decode decrypted in
      match JSON_parse json with
      | None => throw SyntaxError
      | Some vault => ret vault
      end
  end.
End Crypto.

(** ** db.ts *)

Definition set_vault_store (w : Browser)
           (v : jsstring -> option VaultRecord.t) : Browser :=
  mkBrowser (clock w) (uuids w) (entropy w) (salt_item w) v (idb_faults w).

(** One request to the object store [vault]: it takes the next outcome. *)
Definition idb_request {A} (request : Browser -> A * Browser) : M Browser A :=
  fun w =>
    let w' := mkBrowser (clock w) (uuids w) (entropy w) (salt_item w)
                        (vault_store w) (shift (idb_faults w)) in
    if idb_faults w 0 then (inl StorageError, w')
    else let '(a, w'') := request w' in (inr a, w'').

(** [db.get(STORE_NAME, key)]. *)
Definition loadVault : M Browser (option VaultRecord.t) :=
  idb_request (fun w => (vault_store w (str "data"), w)).

(** [db.put(STORE_NAME, record)]: the key is the [id] of the record. *)
Definition saveVault (record : VaultRecord.t) : M Browser unit :=
  idb_request
    (fun w =>
       (tt, set_vault_store w
              (fun key => if jsstring_eqb key (VaultRecord.id record)
                          then Some record else vault_store w key))).

(** [db.delete(STORE_NAME, key)]. *)
Definition clearVault : M Browser unit :=
  idb_request
    (fun w =>
       (tt, set_vault_store w
              (fun key => if jsstring_eqb key (str "data")
                          then None else vault_store w key))).

(** ** App.tsx: the session and its handlers *)

Module Session.
Record t {P : Platform} : Type := mk {
  key : CryptoKey;
  vault : Vault.t
}.
Arguments t : clear implicits.
Arguments mk {P} key vault.
Arguments key {P} _.
Arguments vault {P} _.
End Session.

Module LineItemDraft.
Record t : Type := mk {
  id : jsstring;
  name : jsstring;
  category : jsstring;
  price : jsstring;
  quantity : jsstring
}.
End LineItemDraft.

Module ReceiptDraft.
Record t : Type := mk {
  storeName : jsstring;
  visitedAt : jsstring;
  total : jsstring;
  note : jsstring;
  category : jsstring;
  imageData : option jsstring;
  lineItems : list LineItemDraft.t
}.
End ReceiptDraft.

Definition defaultCategories : list Category.t :=
  [ Category.mk (str "supermarket") (str "スーパー") (str "#3de0a2");
    Category.mk (str "convenience") (str "コンビニ") (str "#f59e0b");
    Category.mk (str "drugstore") (str "ドラッグストア") (str "#a78bfa");
    Category.mk (str "restaurant") (str "飲食店") (str "#ef4444");
    Category.mk (str "clothing") (str "衣料品店") (str "#ec4899");
    Category.mk (str "electronics") (str "家電・雑貨") (str "#38bdf8");
    Category.mk (str "medical") (str "医療・薬局") (str "#14b8a6");
    Category.mk (str "entertainment") (str "娯楽") (str "#8b5cf6");
    Category.mk (str "other") (str "その他") (str "#94a3b8") ].

Definition createVault : Vault.t := Vault.mk [] defaultCategories.

Definition initialDraft (categories : list Category.t)
  : M Browser ReceiptDraft.t :=
  now <- Date_now_toISOString ;;
  ret (ReceiptDraft.mk
         []
         (JS.slice0 10 now)
         []
         []
         (match nth_error categories 0 with
          | Some c => Category.name c
          | None => str "その他"
          end)
         None
         []).

Section App.
Context {P : Platform}.

(** The React state of [App] that the handlers read or write. *)
Record AppState : Type := mkApp {
  session : option (Session.t P);
  unlocking : bool;
  unlockError : option jsstring;
  ocrProgress : option number;
  ocrText : jsstring;
  lastUploadedName : option jsstring;
  saveImage : bool;
  draft : ReceiptDraft.t;
  expandedImages : list jsstring
}.

Record Page : Type := mkPage {
  browser : Browser;
  app : AppState
}.

(** A computation of the libraries, run from a handler. *)
Definition lift {A} (c : M Browser A) : M Page A :=
  fun p => let '(r, w) := c (browser p) in (r, mkPage w (app p)).

Definition setState (f : AppState -> AppState) : M Page unit :=
  fun p => (inr tt, mkPage (browser p) (f (app p))).

Definition setSession (v : option (Session.t P)) : M Page unit :=
  setState (fun a => mkApp v (unlocking a) (unlockError a) (ocrProgress a)
                           (ocrText a) (lastUploadedName a) (saveImage a)
                           (draft a) (expandedImages a)).

Definition setUnlocking (v : bool) : M Page unit :=
  setState (fun a => mkApp (session a) v (unlockError a) (ocrProgress a)
                           (ocrText a) (lastUploadedName a) (saveImage a)
                           (draft a) (expandedImages a)).

Definition setUnlockError (v : option jsstring) : M Page unit :=
  setState (fun a => mkApp (session a) (unlocking a) v (ocrProgress a)
                           (ocrText a) (lastUploadedName a) (saveImage a)
                           (draft a) (expandedImages a)).

Definition setOcrProgress (v : option number) : M Page unit :=
  setState (fun a => mkApp (session a) (unlocking a) (unlockError a) v
                           (ocrText a) (lastUploadedName a) (saveImage a)
                           (draft a) (expandedImages a)).

Definition setOcrText (v : jsstring) : M Page unit :=
  setState (fun a => mkApp (session a) (unlocking a) (unlockError a)
                           (ocrProgress a) v (lastUploadedName a)
                           (saveImage a) (draft a) (expandedImages a)).

Definition setLastUploadedName (v : option jsstring) : M Page unit :=
  setState (fun a => mkApp (session a) (unlocking a) (unlockError a)
                           (ocrProgress a) (ocrText a) v (saveImage a)
                           (draft a) (expandedImages a)).

Definition setDraft (v : ReceiptDraft.t) : M Page unit :=
  setState (fun a => mkApp (session a) (unlocking a) (unlockError a)
                           (ocrProgress a) (ocrText a) (lastUploadedName a)
                           (saveImage a) v (expandedImages a)).

Definition setExpandedImages (v : list jsstring) : M Page unit :=
  setState (fun a => mkApp (session a) (unlocking a) (unlockError a)
                           (ocrProgress a) (ocrText a) (lastUploadedName a)
                           (saveImage a) (draft a) v).

(** The state of the render the handler was created in. *)
Definition render : M Page AppState := fun p => (inr (app p), p).

Definition persistVault (nextVault : Vault.t) (key : CryptoKey)
  : M Page unit :=
  encrypted <- lift (encryptVault nextVault key) ;;
  lift (saveVault (VaultRecord.mk (str "data") (fst encrypted)
                                  (snd encrypted) 1)) ;;;
  setSession (Some (Session.mk key nextVault)).

(** The [try] block of [handleUnlock]. *)
Definition unlockAttempt (passphrase : jsstring) : M Page unit :=
  salt <- lift getOrCreateSalt ;;
  key <- lift (deriveKey passphrase salt) ;;
  stored <- lift loadVault ;;
  match stored with
  | None =>
      let vault := createVault in
      persistVault vault key ;;;
      d <- lift (initialDraft (Vault.categories vault)) ;;
      setDraft d
  | Some stored =>
      vault <- lift (decryptVault (VaultRecord.ciphertext stored)
                                  (VaultRecord.iv stored) key) ;;
      setSession (Some (Session.mk key vault)) ;;;
      d <- lift (initialDraft (Vault.categories vault)) ;;
      setDraft d
  end.

Definition handleUnlock (passphrase : jsstring) : M Page unit :=
  setUnlockError None ;;;
  setUnlocking true ;;;
  try_finally
    (try_catch
       (unlockAttempt passphrase)
       (fun _ =>
          setUnlockError
            (Some (str "パスフレーズが違うかデータを復号できませんでした。"))))
    (setUnlocking false).

Definition handleLock : M Page unit :=
  setSession None ;;;
  setOcrText [] ;;;
  setOcrProgress None ;;;
  setLastUploadedName None ;;;
  d <- lift (initialDraft defaultCategories) ;;
  setDraft d.

(** [Number(text) || fallback]. *)
Definition numberOr (text : jsstring) (fallback : number) : number :=
  Num.or_else (Num.of_string text) fallback.

Definition handleSaveReceipt : M Page unit :=
  a <- render ;;
  match session a with
  | None => ret tt
  | Some session =>
      let draft := draft a in
      let lineItems :=
        map (fun item =>
               LineItem.mk (LineItemDraft.id item)
                           (LineItemDraft.name item)
                           (LineItemDraft.category item)
                           (numberOr (LineItemDraft.price item) Num.zero)
                           (numberOr (LineItemDraft.quantity item)
                                     (Num.of_N 1)))
            (ReceiptDraft.lineItems draft) in
      let computedTotal := numberOr (ReceiptDraft.total draft) Num.zero in
      now <- lift Date_now_toISOString ;;
      id <- lift randomUUID ;;
      let receipt :=
        Receipt.mk
          id
          (if JS.truthy_string (ReceiptDraft.storeName draft)
           then ReceiptDraft.storeName draft else str "無題のレシート")
          (if JS.truthy_string (ReceiptDraft.visitedAt draft)
           then ReceiptDraft.visitedAt draft else JS.slice0 10 now)
          computedTotal
          (Some (ReceiptDraft.category draft))
          None
          (if JS.truthy_string (ReceiptDraft.note draft)
           then Some (ReceiptDraft.note draft) else None)
          (if saveImage a then ReceiptDraft.imageData draft else None)
          lineItems
          now
          now in
      let nextVault :=
        Vault.mk (receipt :: Vault.receipts (Session.vault session))
                 (Vault.categories (Session.vault session)) in
      persistVault nextVault (Session.key session) ;;;
      d <- lift (initialDraft (Vault.categories (Session.vault session))) ;;
      setDraft d ;;;
      setOcrText [] ;;;
      setOcrProgress None ;;;
      setLastUploadedName None
  end.

Definition handleDeleteReceipt (id : jsstring) : M Page unit :=
  a <- render ;;
  match session a with
  | None => ret tt
  | Some session =>
      let nextVault :=
        Vault.mk
          (filter (fun r => negb (jsstring_eqb (Receipt.id r) id))
                  (Vault.receipts (Session.vault session)))
          (Vault.categories (Session.vault session)) in
      persistVault nextVault (Session.key session)
  end.

(** [text] is what [file.text()] resolved to. *)
Definition handleImportCsv (text : jsstring) : M Page unit :=
  a <- render ;;
  receipts <- lift (importCsvToReceipts text) ;;
  match session a with
  | None => ret tt
  | Some session =>
      let nextVault :=
        Vault.mk (receipts ++ Vault.receipts (Session.vault session))
                 (Vault.categories (Session.vault session)) in
      persistVault nextVault (Session.key session)
  end.

Definition handleCleanupImages : M Page unit :=
  a <- render ;;
  match session a with
  | None => ret tt
  | Some session =>
      let cleaned :=
        map (fun r =>
               Receipt.mk (Receipt.id r) (Receipt.storeName r)
                          (Receipt.visitedAt r) (Receipt.total r)
                          (Receipt.category r) (Receipt.tax r)
                          (Receipt.note r) None (Receipt.lineItems r)
                          (Receipt.createdAt r) (Receipt.updatedAt r))
            (Vault.receipts (Session.vault session)) in
      persistVault (Vault.mk cleaned
                             (Vault.categories (Session.vault session)))
                   (Session.key session) ;;;
      setExpandedImages []
  end.

(** The mutations of the vault that the page offers. *)
Inductive mutation : Type :=
| SaveReceipt
| DeleteReceipt (id : jsstring)
| ImportCsv (text : jsstring)
| CleanupImages.

Definition mutate (m : mutation) : M Page unit :=
  match m with
  | SaveReceipt => handleSaveReceipt
  | DeleteReceipt id => handleDeleteReceipt id
  | ImportCsv text => handleImportCsv text
  | CleanupImages => handleCleanupImages
  end.
End App.

(** ** The vocabulary of the statements *)

(** A text with each of its double quotes written twice. *)
Definition doubled (s : jsstring) : jsstring :=
  JS.replaceAll_unit s QUOTE [QUOTE; QUOTE].

(** A cell that is made of double quotes only, and of at least one. *)
Definition onlyQuotes (s : jsstring) : bool :=
  negb (Nat.eqb (List.length s) 0) && forallb (N.eqb QUOTE) s.

(** What follows in the line does not start with a double quote. *)
Definition noQuoteAhead (tail : jsstring) : Prop :=
  match tail with [] => True | next :: _ => N.eqb next QUOTE = false end.

(** A cell without line feed that is not made of double quotes only. *)
Definition cellOk (cell : jsstring) : Prop :=
  JS.includes_unit cell LF = false /\ onlyQuotes cell = false.

(** The data rows the import parses from a text. *)
Definition parsedRows (csv : jsstring) : list Row.t :=
  match csvLines csv with
  | [] => []
  | line0 :: _ => map parseRow (dataLinesOf (csvLines csv) line0)
  end.

(** The Receipt that the import builds from a kept row, given the clock
    reading and the UUID drawn for it. *)
Definition importedReceipt (now id : jsstring) (row : Row.t) : Receipt.t :=
  Receipt.mk id
    (if JS.truthy_string (Row.store row) then Row.store row else str "インポート")
    (if JS.truthy_string (Row.date row) then Row.date row else JS.slice0 10 now)
    (Row.total row) None None (Row.note row) None [] now now.

Fixpoint importedReceipts (clock uuids : nat -> jsstring) (rows : list Row.t)
  : list Receipt.t :=
  match rows with
  | [] => []
  | row :: rows' =>
      importedReceipt (clock 0%nat) (uuids 0%nat) row
        :: importedReceipts (shift clock) (shift uuids) rows'
  end.

(** The rows that are the first of their key, in the order of the text. *)
Fixpoint firstOfKey (seen : list jsstring) (rows : list Row.t) : list Row.t :=
  match rows with
  | [] => []
  | row :: rows' =>
      if existsb (fun k => jsstring_eqb k (rowKey row)) seen
      then firstOfKey seen rows'
      else row :: firstOfKey (rowKey row :: seen) rows'
  end.

(** The storage of the browser, which the import does not touch. *)
Definition sameStorage (w w' : Browser) : Prop :=
  salt_item w' = salt_item w /\ vault_store w' = vault_store w /\
  idb_faults w' = idb_faults w /\ entropy w' = entropy w.

(** The cell the import reads the total from: [cols[6] ?? cols[2]]. *)
Definition totalCell (cols : list jsstring) : option jsstring :=
  match nth_error cols 6 with
  | Some c => Some c
  | None => nth_error cols 2
  end.

(** A number that is a non-negative integer: a finite [m * 2^e] without
    the minus sign and with [e >= 0] (in canonical form [m] is odd or 0). *)
Definition nonNegativeInteger (x : number) : Prop :=
  match x with
  | Finite false _ e => (0 <= e)%Z
  | _ => False
  end.

Definition number_eq_dec (a b : number) : {a = b} + {a <> b}.
Proof.
  decide equality;
    first [apply Z.eq_dec | apply N.eq_dec | apply Bool.bool_dec].
Defined.

(** The composite key of a row read as the tuple of its four fields: a row
    holds nothing else, so two rows have the same tuple when they are equal. *)
Definition Row_eq_dec (a b : Row.t) : {a = b} + {a <> b}.
Proof.
  decide equality;
    first [ apply number_eq_dec
          | apply (list_eq_dec N.eq_dec)
          | decide equality; apply (list_eq_dec N.eq_dec) ].
Defined.

(** The browser after [encryptVault] drew its nonce. *)
Definition afterNonce (w : Browser) : Browser :=
  mkBrowser (clock w) (uuids w) (fun i => entropy w (12 + i)%nat)
            (salt_item w) (vault_store w) (idb_faults w).

(** *** The format of the specification

    The format as the specification words it: named columns in a fixed
    order, one line per line item with the fields of the receipt repeated,
    one line with blank item fields for a receipt without line items, and
    fields quoted when they hold a comma, a quote or a line feed. *)
Module CsvFormat.

Record Line : Type := mkLine {
  date : jsstring;
  store : jsstring;
  store_category : jsstring;
  item_name : jsstring;
  item_category : jsstring;
  quantity : jsstring;
  unit_price : jsstring;
  subtotal : jsstring;
  receipt_total : jsstring;
  note : jsstring
}.

Definition columns (l : Line) : list jsstring :=
  [date l; store l; store_category l; item_name l; item_category l;
   quantity l; unit_price l; subtotal l; receipt_total l; note l].

Definition headerText : jsstring :=
  str "date,store,store_category,item_name,item_category,quantity,unit_price,subtotal,receipt_total,note".

(** The line of a receipt for given item fields. *)
Definition lineOf (r : Receipt.t) (name category qty price sub : jsstring)
  : Line :=
  mkLine (Receipt.visitedAt r) (Receipt.storeName r)
         (orEmpty (Receipt.category r))
         name category qty price sub
         (Num.to_string (Receipt.total r))
         (orEmpty (Receipt.note r)).

Definition linesOf (r : Receipt.t) : list Line :=
  match Receipt.lineItems r with
  | [] => [lineOf r [] [] [] [] []]
  | items =>
      map (fun item =>
             lineOf r (LineItem.name item) (LineItem.category item)
                    (Num.to_string (LineItem.quantity item))
                    (Num.to_string (LineItem.price item))
                    (Num.to_string
                       (Num.mul (LineItem.price item) (LineItem.quantity item))))
          items
  end.

(** Standard CSV quoting. *)
Definition quoted (field : jsstring) : jsstring :=
  if existsb (fun c => N.eqb c COMMA || N.eqb c QUOTE || N.eqb c LF) field
  then [QUOTE] ++ flat_map (fun c => if N.eqb c QUOTE then [QUOTE; QUOTE] else [c]) field
       ++ [QUOTE]
  else field.

Definition lineText (l : Line) : jsstring :=
  JS.join [COMMA] (map quoted (columns l)).

Definition text (receipts : list Receipt.t) : jsstring :=
  JS.join [LF] (headerText :: map lineText (flat_map linesOf receipts)).

(** How many lines a receipt gives. *)
Definition lineCount (r : Receipt.t) : nat :=
  match Receipt.lineItems r with
  | [] => 1
  | items => List.length items
  end.

End CsvFormat.

Section SessionVocabulary.
Context {P : Platform}.

(** The record [persistVault] writes for a vault, a key and a browser. *)
Definition recordFor (vault : Vault.t) (key : CryptoKey) (w : Browser)
: VaultRecord.t :=
let iv := map (entropy w) (seq 0 12) in
VaultRecord.mk (str "data")
  (AES_GCM_encrypt key iv (TextEncoder_encode (JSON_stringify vault)))
  iv 1.

Definition withSession (a : AppState) (v : option (Session.t P)) : AppState :=
mkApp v (unlocking a) (unlockError a) (ocrProgress a) (ocrText a)
      (lastUploadedName a) (saveImage a) (draft a) (expandedImages a).

(** The salt item, when there is one, is a text [atob] accepts. *)
Definition saltReadable (w : Browser) : Prop :=
match salt_item w with
| Some (c :: t) => exists u, atob (c :: t) = Some u
| _ => True
end.

(** [salt] is what the salt item of the browser decodes to. *)
Definition persistedSalt (w : Browser) (salt : list Byte.byte) : Prop :=
exists c t u,
  salt_item w = Some (c :: t) /\ atob (c :: t) = Some u /\
  map byte_of_unit u = salt.

(** The Receipt [handleSaveReceipt] builds from the draft, given the clock
  reading and the UUID it drew. *)
Definition savedReceipt (a : AppState) (now id : jsstring) : Receipt.t :=
let d := draft a in
Receipt.mk id
  (if JS.truthy_string (ReceiptDraft.storeName d)
   then ReceiptDraft.storeName d else str "無題のレシート")
  (if JS.truthy_string (ReceiptDraft.visitedAt d)
   then ReceiptDraft.visitedAt d else JS.slice0 10 now)
  (numberOr (ReceiptDraft.total d) Num.zero)
  (Some (ReceiptDraft.category d))
  None
  (if JS.truthy_string (ReceiptDraft.note d)
   then Some (ReceiptDraft.note d) else None)
  (if saveImage a then ReceiptDraft.imageData d else None)
  (map (fun item =>
          LineItem.mk (LineItemDraft.id item) (LineItemDraft.name item)
                      (LineItemDraft.category item)
                      (numberOr (LineItemDraft.price item) Num.zero)
                      (numberOr (LineItemDraft.quantity item) (Num.of_N 1)))
       (ReceiptDraft.lineItems d))
  now now.

End SessionVocabulary.

(** ** A platform to run the theorems on

    A small implementation of the platform that satisfies its laws.  A key is
    one byte and a ciphertext carries the key that made it in front of the
    data, so that decryption under another key is refused; base64 is the
    identity; the JSON codec knows the one vault of a first run. *)
Module Sample.

Definition encrypt (key : Byte.byte) (iv data : list Byte.byte)
  : list Byte.byte := key :: data.

Definition decrypt (key : Byte.byte) (iv ciphertext : list Byte.byte)
  : option (list Byte.byte) :=
  match ciphertext with
  | [] => None
  | k :: data => if Byte.eqb k key then Some data else None
  end.

Definition platform : Platform := {|
  CryptoKey := Byte.byte;
  PBKDF2_SHA256_AES256 := fun password salt _ => hd Byte.x00 (salt ++ password);
  AES_GCM_encrypt := encrypt;
  AES_GCM_decrypt := decrypt;
  JSON_stringify := fun _ => str "vault";
  JSON_parse := fun _ => Some createVault;
  TextEncoder_encode := map byte_of_unit;
  TextDecoder_decode := map Byte.to_N;
  btoa := fun s => Some s;
  atob := fun s => Some s
|}.

Definition browser (fault : bool) : Browser :=
  mkBrowser (fun _ => str "2024-05-01T09:00:00.000Z")
            (fun n => str "receipt-" ++ Num.decimal (Z.of_nat n))
            (fun _ => Byte.x2a) None (fun _ => None) (fun _ => fault).

Definition receiptDraft : ReceiptDraft.t :=
  ReceiptDraft.mk (str "SuperMart") (str "2024-05-01") (str "980") []
                  (str "スーパー") None [].

Definition session : @Session.t platform :=
  @Session.mk platform Byte.x07 createVault.

Definition page (fault : bool) (s : option (@Session.t platform))
  : @Page platform :=
  @mkPage platform (browser fault)
    (@mkApp platform s false None None [] None false receiptDraft []).

End Sample.

(** * Theorems *)

(** ** parseCsvLine against escapeCell *)

Section CellRoundTrip.

Lemma doubled_cons_quote s : doubled (QUOTE :: s) = QUOTE :: QUOTE :: doubled s.
Proof. reflexivity. Qed.

Lemma doubled_cons_other c s :
  N.eqb c QUOTE = false -> doubled (c :: s) = c :: doubled s.
Proof. intros H. unfold doubled. simpl. rewrite H. reflexivity. Qed.

(** One step of the loop on a unit that is no quote. *)
Lemma loop_plain c rest result current inQuotes :
  N.eqb c QUOTE = false ->
  parseCsvLine_loop (c :: rest) result current inQuotes =
  if N.eqb c COMMA && negb inQuotes
  then parseCsvLine_loop rest (result ++ [current]) [] inQuotes
  else parseCsvLine_loop rest result (current ++ [c]) inQuotes.
Proof.
  intros H. destruct rest as [|next rest']; simpl; rewrite H; reflexivity.
Qed.

(** One step on a quote that no quote follows. *)
Lemma loop_single_quote rest result current inQuotes :
  match rest with [] => True | next :: _ => N.eqb next QUOTE = false end ->
  parseCsvLine_loop (QUOTE :: rest) result current inQuotes =
  parseCsvLine_loop rest result current (negb inQuotes).
Proof.
  destruct rest as [|next rest']; simpl; [reflexivity|].
  intros ->. reflexivity.
Qed.

(** One step on two quotes in a row. *)
Lemma loop_quote_pair rest result current inQuotes :
  parseCsvLine_loop (QUOTE :: QUOTE :: rest) result current inQuotes =
  parseCsvLine_loop rest result (current ++ [QUOTE]) inQuotes.
Proof. reflexivity. Qed.

(** Inside the quotes: the doubled body and the closing quote give the
    body back and leave the quotes. *)
Lemma loop_quoted_body cell : forall tail result current,
  noQuoteAhead tail ->
  parseCsvLine_loop (doubled cell ++ QUOTE :: tail) result current true =
  parseCsvLine_loop tail result (current ++ cell) false.
Proof.
  induction cell as [|c cell IH]; intros tail result current Htail.
  - change (doubled [] ++ QUOTE :: tail) with (QUOTE :: tail).
    rewrite loop_single_quote by exact Htail.
    rewrite app_nil_r. reflexivity.
  - destruct (N.eqb c QUOTE) eqn:Hc.
    + apply N.eqb_eq in Hc. subst c.
      rewrite doubled_cons_quote. rewrite <- ?app_comm_cons.
      rewrite loop_quote_pair, IH by exact Htail.
      rewrite <- app_assoc. reflexivity.
    + rewrite doubled_cons_other by exact Hc. rewrite <- ?app_comm_cons.
      rewrite loop_plain by exact Hc.
      rewrite andb_false_r, IH by exact Htail.
      rewrite <- app_assoc. reflexivity.
Qed.

(** From the opening quote on, for a cell that holds some other unit. *)
Lemma loop_quoted_cell cell : forall tail result current,
  forallb (N.eqb QUOTE) cell = false ->
  noQuoteAhead tail ->
  parseCsvLine_loop (QUOTE :: doubled cell ++ QUOTE :: tail) result current false =
  parseCsvLine_loop tail result (current ++ cell) false.
Proof.
  induction cell as [|c cell IH]; intros tail result current Hcell Htail.
  - discriminate.
  - destruct (N.eqb c QUOTE) eqn:Hc.
    + apply N.eqb_eq in Hc. subst c. simpl in Hcell.
      rewrite doubled_cons_quote. rewrite <- ?app_comm_cons.
      rewrite loop_quote_pair.
      rewrite IH by assumption.
      rewrite <- app_assoc. reflexivity.
    + rewrite doubled_cons_other by exact Hc. rewrite <- ?app_comm_cons.
      rewrite loop_single_quote by (simpl; exact Hc).
      rewrite loop_plain by exact Hc.
      rewrite andb_false_r. simpl negb.
      rewrite loop_quoted_body by exact Htail.
      rewrite <- app_assoc. reflexivity.
Qed.

Lemma needsQuoting_cons c cell :
  needsQuoting (c :: cell) =
  (N.eqb c QUOTE || N.eqb c COMMA || N.eqb c LF) || needsQuoting cell.
Proof.
  unfold needsQuoting, JS.includes_unit. cbn [existsb].
  rewrite (N.eqb_sym QUOTE c), (N.eqb_sym COMMA c), (N.eqb_sym LF c).
  destruct (N.eqb c QUOTE), (N.eqb c COMMA), (N.eqb c LF),
    (existsb (N.eqb QUOTE) cell), (existsb (N.eqb COMMA) cell),
    (existsb (N.eqb LF) cell); reflexivity.
Qed.

(** A cell written as it is: no quote, comma or line feed in it. *)
Lemma loop_bare_cell cell : forall tail result current,
  needsQuoting cell = false ->
  parseCsvLine_loop (cell ++ tail) result current false =
  parseCsvLine_loop tail result (current ++ cell) false.
Proof.
  induction cell as [|c cell IH]; intros tail result current Hq.
  - simpl. rewrite app_nil_r. reflexivity.
  - rewrite needsQuoting_cons in Hq.
    apply orb_false_elim in Hq. destruct Hq as [Hc Hcell].
    apply orb_false_elim in Hc. destruct Hc as [Hc _].
    apply orb_false_elim in Hc. destruct Hc as [Hquote Hcomma].
    rewrite <- ?app_comm_cons. rewrite loop_plain by exact Hquote.
    rewrite Hcomma. cbn [andb].
    rewrite IH by exact Hcell.
    rewrite <- app_assoc. reflexivity.
Qed.

Lemma needsQuoting_not_all_quotes cell :
  needsQuoting cell = true -> onlyQuotes cell = false ->
  forallb (N.eqb QUOTE) cell = false.
Proof.
  unfold onlyQuotes. destruct cell as [|c cell]; [discriminate|].
  simpl. intros _ H. exact H.
Qed.

(** Reading one escaped cell, whatever follows it in the line. *)
Lemma loop_escaped_cell cell tail result current :
  cellOk cell -> noQuoteAhead tail ->
  parseCsvLine_loop (escapeCell (VString cell) ++ tail) result current false =
  parseCsvLine_loop tail result (current ++ cell) false.
Proof.
  intros [_ Hq] Htail. unfold escapeCell, String_of.
  destruct (needsQuoting cell) eqn:Hneeds.
  - rewrite <- ?app_comm_cons. rewrite <- app_assoc. rewrite <- ?app_comm_cons.
    apply loop_quoted_cell; [|exact Htail].
    apply needsQuoting_not_all_quotes; assumption.
  - apply loop_bare_cell. exact Hneeds.
Qed.

Lemma loop_escaped_row cells : forall cell result,
  Forall cellOk (cell :: cells) ->
  parseCsvLine_loop
    (JS.join [COMMA] (map (fun c => escapeCell (VString c)) (cell :: cells)))
    result [] false
  = result ++ cell :: cells.
Proof.
  induction cells as [|cell' cells IH]; intros cell result Hall.
  - simpl JS.join.
    rewrite <- (app_nil_r (escapeCell (VString cell))).
    rewrite loop_escaped_cell; [reflexivity| |exact I].
    inversion Hall; assumption.
  - change (JS.join [COMMA] (map (fun c => escapeCell (VString c)) (cell :: cell' :: cells)))
      with (escapeCell (VString cell) ++ COMMA ::
            JS.join [COMMA] (map (fun c => escapeCell (VString c)) (cell' :: cells))).
    inversion Hall as [|? ? Hcell Hrest]; subst.
    rewrite loop_escaped_cell; [|exact Hcell|reflexivity].
    rewrite loop_plain by reflexivity.
    rewrite N.eqb_refl. cbn [andb negb app].
    rewrite IH by exact Hrest.
    rewrite <- app_assoc. reflexivity.
Qed.

End CellRoundTrip.

(** C10 (as amended): for every non-empty list of cell strings, none of which
    contains a line feed and none of which is made of double quotes only,
    [parseCsvLine] applied to the comma-joined [escapeCell] images returns
    the list itself. *)
Theorem parseCsvLine_escapeCell_roundtrip (cells : list jsstring) :
  cells <> [] ->
  Forall (fun cell => JS.includes_unit cell LF = false) cells ->
  Forall (fun cell => onlyQuotes cell = false) cells ->
  parseCsvLine (JS.join [COMMA] (map (fun c => escapeCell (VString c)) cells))
  = cells.
Proof.
  intros Hne Hlf Hq. destruct cells as [|cell cells]; [congruence|].
  unfold parseCsvLine. rewrite loop_escaped_row; [reflexivity|].
  rewrite Forall_forall in *. intros c Hc. split; auto.
Qed.

Lemma parseCsvLine_escapeCell_roundtrip_witness :
  parseCsvLine
    (JS.join [COMMA]
       (map (fun c => escapeCell (VString c))
            [str "Super, Mart"; QUOTE :: str "hi" ++ [QUOTE]; []; str "980"]))
  = [str "Super, Mart"; QUOTE :: str "hi" ++ [QUOTE]; []; str "980"].
Proof.
  apply parseCsvLine_escapeCell_roundtrip.
  - discriminate.
  - repeat constructor.
  - repeat constructor.
Defined.

(** C10, as stated, fails on the list of no cell: it joins to the empty
    line, which the parser reads as one empty cell. *)
Lemma parseCsvLine_escapeCell_counterexample :
  ~ (forall cells : list jsstring,
        Forall (fun cell => JS.includes_unit cell LF = false) cells ->
        parseCsvLine (JS.join [COMMA] (map (fun c => escapeCell (VString c)) cells))
        = cells).
Proof.
  intros H. specialize (H [] (Forall_nil _)).
  vm_compute in H. discriminate.
Qed.

(** A cell that is one double quote is written as four quotes, which the
    parser reads as two escaped quotes. *)
Example parseCsvLine_lone_quote :
  parseCsvLine (JS.join [COMMA] (map (fun c => escapeCell (VString c)) [[QUOTE]]))
  = [[QUOTE; QUOTE]].
Proof. reflexivity. Qed.

(** ** importCsvToReceipts *)

Lemma jsstring_eqb_eq a b : jsstring_eqb a b = true <-> a = b.
Proof.
  unfold jsstring_eqb. destruct (list_eq_dec N.eq_dec a b); split; congruence.
Qed.

Lemma jsstring_eqb_refl a : jsstring_eqb a a = true.
Proof. apply jsstring_eqb_eq. reflexivity. Qed.

Section RowMapFacts.

(** Setting a key the map does not have appends the entry. *)
Lemma map_set_fresh m key row :
  map_has m key = false -> map_set m key row = m ++ [(key, row)].
Proof.
  induction m as [|[k v] m IH]; intros H; [reflexivity|].
  unfold map_has in H. simpl in H. apply orb_false_elim in H.
  destruct H as [Hk Hm]. simpl. rewrite Hk. f_equal. apply IH. exact Hm.
Qed.

Lemma existsb_keys_map_has m key :
  existsb (fun k => jsstring_eqb k key) (map fst m) = map_has m key.
Proof.
  unfold map_has. induction m as [|[k v] m IH]; simpl; [reflexivity|].
  rewrite IH. reflexivity.
Qed.

Lemma existsb_perm_keys (seen seen' : list jsstring) key :
  (forall k, In k seen <-> In k seen') ->
  existsb (fun k => jsstring_eqb k key) seen =
  existsb (fun k => jsstring_eqb k key) seen'.
Proof.
  intros H. apply eq_true_iff_eq. rewrite !existsb_exists.
  split; intros [k [Hin Heq]]; exists k; split; auto; apply H; exact Hin.
Qed.

(** Only the set of the keys seen matters. *)
Lemma firstOfKey_ext rows : forall seen seen',
  (forall k, In k seen <-> In k seen') ->
  firstOfKey seen rows = firstOfKey seen' rows.
Proof.
  induction rows as [|row rows IH]; intros seen seen' H; [reflexivity|].
  cbn [firstOfKey].
  rewrite (@existsb_perm_keys seen seen' (rowKey row) H).
  destruct (existsb _ seen').
  - apply IH. exact H.
  - f_equal. apply IH. intros k. simpl. rewrite H. tauto.
Qed.

(** The fold that fills the map keeps, after what it already holds, the
    first row of every new key. *)
Lemma fold_groupRows rows : forall m,
  map_values
    (fold_left
       (fun m row =>
          let key := rowKey row in
          if map_has m key then m else map_set m key row)
       rows m)
  = map_values m ++ firstOfKey (map fst m) rows.
Proof.
  induction rows as [|row rows IH]; intros m.
  - simpl. rewrite app_nil_r. reflexivity.
  - cbn [fold_left firstOfKey]. cbv zeta.
    rewrite existsb_keys_map_has.
    destruct (map_has m (rowKey row)) eqn:Hhas.
    + apply IH.
    + rewrite IH. rewrite map_set_fresh by exact Hhas.
      unfold map_values. rewrite !map_app. cbn [map fst snd].
      rewrite <- app_assoc. f_equal. apply (f_equal (cons row)).
      apply firstOfKey_ext with (rows := rows). intros k. rewrite in_app_iff. simpl. tauto.
Qed.

Lemma groupRows_values rows :
  map_values (groupRows rows) = firstOfKey [] rows.
Proof. unfold groupRows. rewrite fold_groupRows. reflexivity. Qed.

End RowMapFacts.

Section FirstOfKeyFacts.

Lemma existsb_seen_spec seen key :
  existsb (fun k => jsstring_eqb k key) seen = true <-> In key seen.
Proof.
  rewrite existsb_exists. split.
  - intros [k [Hin Heq]]. apply jsstring_eqb_eq in Heq. subst. exact Hin.
  - intros Hin. exists key. split; [exact Hin|apply jsstring_eqb_refl].
Qed.

Lemma existsb_seen_false seen key :
  existsb (fun k => jsstring_eqb k key) seen = false <-> ~ In key seen.
Proof.
  rewrite <- existsb_seen_spec. destruct (existsb _ seen); split; congruence.
Qed.

(** A kept row has a key not seen before, and no earlier row bears it. *)
Lemma firstOfKey_first rows : forall seen r,
  In r (firstOfKey seen rows) ->
  ~ In (rowKey r) seen /\
  exists pre post,
    rows = pre ++ r :: post /\ forall x, In x pre -> rowKey x <> rowKey r.
Proof.
  induction rows as [|row rows IH]; intros seen r Hin; [contradiction|].
  cbn [firstOfKey] in Hin.
  destruct (existsb (fun k => jsstring_eqb k (rowKey row)) seen) eqn:Hseen.
  - destruct (IH _ _ Hin) as [Hnot [pre [post [Heq Hpre]]]].
    split; [exact Hnot|].
    exists (row :: pre), post. split; [rewrite Heq; reflexivity|].
    intros x [Hx|Hx]; [|apply Hpre; exact Hx].
    subst x. intros Hk. apply Hnot. rewrite <- Hk.
    apply existsb_seen_spec. exact Hseen.
  - apply existsb_seen_false in Hseen. destruct Hin as [Hr|Hin].
    + subst r. split; [exact Hseen|].
      exists [], rows. split; [reflexivity|]. intros x [].
    + destruct (IH _ _ Hin) as [Hnot [pre [post [Heq Hpre]]]].
      split; [intros H; apply Hnot; right; exact H|].
      exists (row :: pre), post. split; [rewrite Heq; reflexivity|].
      intros x [Hx|Hx]; [|apply Hpre; exact Hx].
      subst x. intros Hk. apply Hnot. left. exact Hk.
Qed.

(** No two kept rows share a key. *)
Lemma firstOfKey_NoDup rows : forall seen,
  NoDup (map rowKey (firstOfKey seen rows)).
Proof.
  induction rows as [|row rows IH]; intros seen; [constructor|].
  cbn [firstOfKey].
  destruct (existsb (fun k => jsstring_eqb k (rowKey row)) seen); [apply IH|].
  cbn [map]. constructor; [|apply IH].
  intros Hin. apply in_map_iff in Hin. destruct Hin as [r [Hk Hr]].
  apply firstOfKey_first in Hr. destruct Hr as [Hnot _].
  apply Hnot. left. symmetry. exact Hk.
Qed.

(** The key of every row is seen or kept. *)
Lemma firstOfKey_covers rows : forall seen row,
  In row rows ->
  In (rowKey row) seen \/ In (rowKey row) (map rowKey (firstOfKey seen rows)).
Proof.
  induction rows as [|row' rows IH]; intros seen row Hin; [contradiction|].
  cbn [firstOfKey].
  destruct (existsb (fun k => jsstring_eqb k (rowKey row')) seen) eqn:Hseen.
  - destruct Hin as [Heq|Hin]; [|apply IH; exact Hin].
    subst. left. apply existsb_seen_spec. exact Hseen.
  - destruct Hin as [Heq|Hin].
    + subst. right. left. reflexivity.
    + destruct (IH (rowKey row' :: seen) row Hin) as [[Hk|Hs]|Hk].
      * right. left. exact Hk.
      * left. exact Hs.
      * right. right. exact Hk.
Qed.

Lemma firstOfKey_nil_iff rows : firstOfKey [] rows = [] <-> rows = [].
Proof.
  destruct rows as [|row rows]; [tauto|].
  cbn. split; discriminate.
Qed.

End FirstOfKeyFacts.

Section ImportRun.

Lemma receiptOfRow_run row w :
  receiptOfRow row w
  = (inr (importedReceipt (clock w 0%nat) (uuids w 0%nat) row),
     mkBrowser (shift (clock w)) (shift (uuids w)) (entropy w) (salt_item w)
               (vault_store w) (idb_faults w)).
Proof. reflexivity. Qed.

Lemma mapM_cons {S A B} (f : A -> M S B) x xs s :
  mapM f (x :: xs) s =
  match f x s with
  | (inl e, s1) => (inl e, s1)
  | (inr y, s1) =>
      match mapM f xs s1 with
      | (inl e, s2) => (inl e, s2)
      | (inr ys, s2) => (inr (y :: ys), s2)
      end
  end.
Proof.
  cbn [mapM]. unfold bind, ret.
  destruct (f x s) as [[e|y] s1]; [reflexivity|].
  destruct (mapM f xs s1) as [[e|ys] s2]; reflexivity.
Qed.

Lemma mapM_receiptOfRow rows : forall w,
  fst (mapM receiptOfRow rows w)
  = inr (importedReceipts (clock w) (uuids w) rows)
  /\ sameStorage w (snd (mapM receiptOfRow rows w)).
Proof.
  induction rows as [|row rows IH]; intros w.
  - split; [reflexivity|]. repeat split.
  - rewrite mapM_cons, receiptOfRow_run.
    match goal with
    | |- context [mapM receiptOfRow rows ?w1] =>
        destruct (IH w1) as [Hres Hsto];
        destruct (mapM receiptOfRow rows w1) as [r w2]
    end.
    cbn [fst snd] in Hres, Hsto. subst r. split; [reflexivity|].
    exact Hsto.
Qed.

(** What the import returns, and that it returns. *)
Lemma importCsvToReceipts_run csv w :
  fst (importCsvToReceipts csv w)
  = inr (importedReceipts (clock w) (uuids w) (firstOfKey [] (parsedRows csv)))
  /\ sameStorage w (snd (importCsvToReceipts csv w)).
Proof.
  unfold importCsvToReceipts, parsedRows.
  destruct (csvLines csv) as [|line0 lines] eqn:Hlines.
  - split; [reflexivity|]. repeat split.
  - cbn [List.length Nat.eqb nth_error].
    rewrite groupRows_values. apply mapM_receiptOfRow.
Qed.

End ImportRun.

(** ** The session handlers *)

Section SessionFacts.
Context {P : Platform}.

Lemma encryptVault_run vault key w :
  encryptVault vault key w
  = (inr (VaultRecord.ciphertext (recordFor vault key w),
          VaultRecord.iv (recordFor vault key w)),
     afterNonce w).
Proof. reflexivity. Qed.

(** [persistVault] when the write is rejected: the session is not set. *)
Lemma persistVault_rejected nextVault key p :
  idb_faults (browser p) 0%nat = true ->
  fst (persistVault nextVault key p) = inl StorageError
  /\ app (snd (persistVault nextVault key p)) = app p
  /\ vault_store (browser (snd (persistVault nextVault key p)))
     = vault_store (browser p).
Proof.
  intros Hfault. unfold persistVault, bind, lift.
  rewrite encryptVault_run. cbn [fst snd browser app].
  unfold saveVault, idb_request. cbn [idb_faults afterNonce].
  rewrite Hfault. cbn. auto.
Qed.

(** [persistVault] when the write goes through. *)
Lemma persistVault_stored nextVault key p :
  idb_faults (browser p) 0%nat = false ->
  fst (persistVault nextVault key p) = inr tt
  /\ app (snd (persistVault nextVault key p))
     = withSession (app p) (Some (Session.mk key nextVault))
  /\ vault_store (browser (snd (persistVault nextVault key p))) (str "data")
     = Some (recordFor nextVault key (browser p))
  /\ salt_item (browser (snd (persistVault nextVault key p)))
     = salt_item (browser p)
  /\ idb_faults (browser (snd (persistVault nextVault key p)))
     = shift (idb_faults (browser p)).
Proof.
  intros Hfault. unfold persistVault, bind, lift.
  rewrite encryptVault_run. cbn [fst snd browser app].
  unfold saveVault, idb_request. cbn [idb_faults afterNonce].
  rewrite Hfault. cbn. auto.
Qed.

End SessionFacts.

Section Atomicity.
Context {P : Platform}.

(** In [H : run = handler page], runs the [persistVault] the handler has
    reached, whose write is rejected. *)
Ltac run_persist_rejected H :=
  match type of H with
  | context [persistVault ?v ?k ?q] =>
      let H1 := fresh "Hres" in
      let H2 := fresh "Happ" in
      let H3 := fresh "Hstore" in
      let r := fresh "r" in
      let q' := fresh "q" in
      destruct (@persistVault_rejected P v k q) as [H1 [H2 H3]];
      [ assumption
      | destruct (persistVault v k q) as [r q'];
        cbn [fst snd] in H1, H2, H3; subst r ]
  end.

Lemma handleSaveReceipt_rejected p s :
  session (app p) = Some s ->
  idb_faults (browser p) 0%nat = true ->
  fst (handleSaveReceipt p) = inl StorageError
  /\ session (app (snd (handleSaveReceipt p))) = Some s
  /\ vault_store (browser (snd (handleSaveReceipt p))) = vault_store (browser p).
Proof.
  intros Hs Hfault.
  remember (handleSaveReceipt p) as run eqn:Hrun.
  unfold handleSaveReceipt, bind, render, lift in Hrun.
  rewrite Hs in Hrun.
  unfold Date_now_toISOString, randomUUID in Hrun.
  cbn [browser app fst snd clock uuids] in Hrun.
  run_persist_rejected Hrun.
  subst run. cbn [fst snd]. rewrite Happ. cbn [app browser] in *.
  repeat split; assumption.
Qed.

Lemma handleDeleteReceipt_rejected id p s :
  session (app p) = Some s ->
  idb_faults (browser p) 0%nat = true ->
  fst (handleDeleteReceipt id p) = inl StorageError
  /\ session (app (snd (handleDeleteReceipt id p))) = Some s
  /\ vault_store (browser (snd (handleDeleteReceipt id p)))
     = vault_store (browser p).
Proof.
  intros Hs Hfault.
  remember (handleDeleteReceipt id p) as run eqn:Hrun.
  unfold handleDeleteReceipt, bind, render in Hrun.
  rewrite Hs in Hrun.
  run_persist_rejected Hrun.
  subst run. cbn [fst snd]. rewrite Happ.
  repeat split; assumption.
Qed.

Lemma handleCleanupImages_rejected p s :
  session (app p) = Some s ->
  idb_faults (browser p) 0%nat = true ->
  fst (handleCleanupImages p) = inl StorageError
  /\ session (app (snd (handleCleanupImages p))) = Some s
  /\ vault_store (browser (snd (handleCleanupImages p)))
     = vault_store (browser p).
Proof.
  intros Hs Hfault.
  remember (handleCleanupImages p) as run eqn:Hrun.
  unfold handleCleanupImages, bind, render in Hrun.
  rewrite Hs in Hrun.
  run_persist_rejected Hrun.
  subst run. cbn [fst snd]. rewrite Happ.
  repeat split; assumption.
Qed.

Lemma handleImportCsv_rejected text p s :
  session (app p) = Some s ->
  idb_faults (browser p) 0%nat = true ->
  fst (handleImportCsv text p) = inl StorageError
  /\ session (app (snd (handleImportCsv text p))) = Some s
  /\ vault_store (browser (snd (handleImportCsv text p)))
     = vault_store (browser p).
Proof.
  intros Hs Hfault.
  remember (handleImportCsv text p) as run eqn:Hrun.
  unfold handleImportCsv, bind, render, lift in Hrun.
  destruct (importCsvToReceipts_run text (browser p)) as [Hres Hsame].
  destruct (importCsvToReceipts text (browser p)) as [r w'].
  cbn [fst snd] in Hres, Hsame. subst r.
  destruct Hsame as [_ [Hstore' [Hfaults _]]].
  cbn [app] in Hrun. rewrite Hs in Hrun.
  assert (Hfault' : idb_faults (browser (mkPage w' (app p))) 0%nat = true)
    by (cbn [browser]; rewrite Hfaults; exact Hfault).
  run_persist_rejected Hrun.
  subst run. cbn [fst snd]. rewrite Happ. cbn [app browser] in *.
  rewrite Hstore. repeat split; assumption.
Qed.

End Atomicity.

(** C3: a mutation whose [saveVault] is rejected leaves the session as it
    was.  For every unlocked page and each of the four mutations, when the
    next IndexedDB request (the write of [persistVault]) fails, the handler
    rejects with the storage error, the session still holds the key and the
    vault it held, and the stored record is untouched. *)
Theorem mutate_keeps_session_when_save_fails
        {P : Platform} (m : mutation) (p : Page) (s : Session.t P) :
  session (app p) = Some s ->
  idb_faults (browser p) 0%nat = true ->
  fst (mutate m p) = inl StorageError
  /\ session (app (snd (mutate m p))) = Some s
  /\ vault_store (browser (snd (mutate m p))) = vault_store (browser p).
Proof.
  intros Hs Hfault. destruct m as [|id|text|]; cbn [mutate].
  - apply handleSaveReceipt_rejected; assumption.
  - apply handleDeleteReceipt_rejected; assumption.
  - apply handleImportCsv_rejected; assumption.
  - apply handleCleanupImages_rejected; assumption.
Qed.

(** ** The vault codec *)

Section Codec.
Context {P : Platform}.

Lemma decryptVault_of_encrypted vault key iv w :
  aes_gcm_correct -> json_serializable vault ->
  decryptVault
    (AES_GCM_encrypt key iv (TextEncoder_encode (JSON_stringify vault)))
    iv key w
  = (inr vault, w).
Proof.
  intros Haes [Hutf Hjson]. unfold decryptVault.
  rewrite Haes, Hutf, Hjson. reflexivity.
Qed.

Lemma decryptVault_wrong_key vault key1 key2 iv w :
  aes_gcm_authentic -> key1 <> key2 ->
  decryptVault
    (AES_GCM_encrypt key1 iv (TextEncoder_encode (JSON_stringify vault)))
    iv key2 w
  = (inl AuthenticationError, w).
Proof.
  intros Hauth Hne. unfold decryptVault.
  rewrite (Hauth key1 key2 iv _ Hne). reflexivity.
Qed.

End Codec.

(** C1: decrypting what [encryptVault] produced for a vault, under the same
    key, returns that vault.  The vault is JSON-serializable (it survives
    [JSON.stringify], UTF-8 and [JSON.parse]), and AES-GCM decrypts what it
    encrypted. *)
Theorem decryptVault_encryptVault
        {P : Platform} (V : Vault.t) (K : CryptoKey) (w w' : Browser) :
  aes_gcm_correct ->
  json_serializable V ->
  exists ciphertext iv,
    fst (encryptVault V K w) = inr (ciphertext, iv)
    /\ decryptVault ciphertext iv K w' = (inr V, w').
Proof.
  intros Haes Hjson.
  exists (VaultRecord.ciphertext (recordFor V K w)),
         (VaultRecord.iv (recordFor V K w)).
  split; [reflexivity|].
  apply decryptVault_of_encrypted; assumption.
Qed.

(** C2: decrypting what [encryptVault] produced under one key with another
    key rejects with the authentication error and returns no vault.  The
    cipher is the ideal authenticated one: a tag never verifies under a key
    other than the one that made it. *)
Theorem decryptVault_wrong_key_rejects
        {P : Platform} (V : Vault.t) (K1 K2 : CryptoKey) (w w' : Browser) :
  aes_gcm_authentic ->
  K1 <> K2 ->
  exists ciphertext iv,
    fst (encryptVault V K1 w) = inr (ciphertext, iv)
    /\ fst (decryptVault ciphertext iv K2 w') = inl AuthenticationError
    /\ forall V', fst (decryptVault ciphertext iv K2 w') <> inr V'.
Proof.
  intros Hauth Hne.
  exists (VaultRecord.ciphertext (recordFor V K1 w)),
         (VaultRecord.iv (recordFor V K1 w)).
  split; [reflexivity|].
  unfold recordFor. cbn [VaultRecord.ciphertext VaultRecord.iv].
  rewrite (decryptVault_wrong_key V _ w' Hauth Hne).
  split; [reflexivity|]. intros V'. discriminate.
Qed.

(** ** Unlocking *)

Section Unlock.
Context {P : Platform}.

Lemma byte_of_unit_to_N b : byte_of_unit (Byte.to_N b) = b.
Proof.
  unfold byte_of_unit.
  rewrite N.mod_small by (destruct b; vm_compute; reflexivity).
  rewrite Byte.of_to_N. reflexivity.
Qed.

Lemma map_byte_of_unit_to_N bs : map byte_of_unit (map Byte.to_N bs) = bs.
Proof.
  rewrite map_map. rewrite <- (map_id bs) at 2.
  apply map_ext. intros b. apply byte_of_unit_to_N.
Qed.

(** Reading a salt that is persisted. *)
Lemma getOrCreateSalt_persisted w salt :
  persistedSalt w salt -> getOrCreateSalt w = (inr salt, w).
Proof.
  intros [c [t [u [Hitem [Hatob Hsalt]]]]].
  unfold getOrCreateSalt. rewrite Hitem.
  unfold base64ToBytes. rewrite Hatob, Hsalt. reflexivity.
Qed.

(** The first call creates the salt when there is none, and in both cases
    leaves it persisted. *)
Lemma getOrCreateSalt_run w :
  base64_correct -> saltReadable w ->
  exists salt w1,
    getOrCreateSalt w = (inr salt, w1)
    /\ persistedSalt w1 salt
    /\ vault_store w1 = vault_store w
    /\ idb_faults w1 = idb_faults w.
Proof.
  intros Hb64 Hread. unfold saltReadable in Hread.
  destruct (salt_item w) as [[|c t]|] eqn:Hitem.
  - (* an empty item is falsy: a salt is drawn *)
    destruct (Hb64 (map (entropy w) (seq 0 16))) as [t [Hbtoa [Hne Hatob]]];
      [discriminate|].
    destruct t as [|c t]; [congruence|].
    eexists. eexists. split.
    + unfold getOrCreateSalt. rewrite Hitem.
      unfold bind, getRandomValues, bytesToBase64.
      rewrite Hbtoa. unfold ret. reflexivity.
    + split; [|split; reflexivity].
      exists c, t, (map Byte.to_N (map (entropy w) (seq 0 16))).
      repeat split; [exact Hatob|apply map_byte_of_unit_to_N].
  - destruct Hread as [u Hu].
    exists (map byte_of_unit u), w. split.
    + apply getOrCreateSalt_persisted. exists c, t, u. auto.
    + split; [|split; reflexivity]. exists c, t, u. auto.
  - destruct (Hb64 (map (entropy w) (seq 0 16))) as [t [Hbtoa [Hne Hatob]]];
      [discriminate|].
    destruct t as [|c t]; [congruence|].
    eexists. eexists. split.
    + unfold getOrCreateSalt. rewrite Hitem.
      unfold bind, getRandomValues, bytesToBase64.
      rewrite Hbtoa. unfold ret. reflexivity.
    + split; [|split; reflexivity].
      exists c, t, (map Byte.to_N (map (entropy w) (seq 0 16))).
      repeat split; [exact Hatob|apply map_byte_of_unit_to_N].
Qed.

(** The [try] block on a browser that holds no record. *)
Lemma unlockAttempt_first_run passphrase p :
  base64_correct -> saltReadable (browser p) ->
  vault_store (browser p) (str "data") = None ->
  idb_faults (browser p) 0%nat = false ->
  idb_faults (browser p) 1%nat = false ->
  exists salt iv,
    fst (unlockAttempt passphrase p) = inr tt
    /\ persistedSalt (browser (snd (unlockAttempt passphrase p))) salt
    /\ session (app (snd (unlockAttempt passphrase p)))
       = Some (Session.mk
                 (PBKDF2_SHA256_AES256 (TextEncoder_encode passphrase) salt
                                       iterations)
                 createVault)
    /\ unlockError (app (snd (unlockAttempt passphrase p))) = unlockError (app p)
    /\ unlocking (app (snd (unlockAttempt passphrase p))) = unlocking (app p)
    /\ vault_store (browser (snd (unlockAttempt passphrase p))) (str "data")
       = Some (VaultRecord.mk (str "data")
                 (AES_GCM_encrypt
                    (PBKDF2_SHA256_AES256 (TextEncoder_encode passphrase) salt
                                          iterations)
                    iv (TextEncoder_encode (JSON_stringify createVault)))
                 iv 1).
Proof.
  intros Hb64 Hread Hnone Hf0 Hf1.
  destruct (@getOrCreateSalt_run (browser p) Hb64 Hread)
    as [salt [w1 [Hsalt [Hpers [Hstore Hfaults]]]]].
  exists salt.
  remember (unlockAttempt passphrase p) as run eqn:Hrun.
  unfold unlockAttempt, bind, lift in Hrun.
  rewrite Hsalt in Hrun. unfold deriveKey, ret in Hrun.
  cbn [browser app fst snd] in Hrun.
  unfold loadVault, idb_request in Hrun.
  rewrite Hfaults, Hf0 in Hrun.
  cbn [browser app fst snd vault_store] in Hrun.
  rewrite Hstore, Hnone in Hrun.
  match type of Hrun with
  | context [persistVault ?v ?k ?q] =>
      destruct (@persistVault_stored P v k q)
        as [Hres [Happ [Hrec [Hitem Hfaults']]]];
      [ cbn [browser idb_faults]; exact Hf1
      | destruct (persistVault v k q) as [r q'];
        cbn [fst snd] in Hres, Happ, Hrec, Hitem, Hfaults'; subst r ]
  end.
  unfold initialDraft, bind, Date_now_toISOString, ret, setDraft, setState
    in Hrun.
  cbn [browser app fst snd] in Hrun.
  eexists. subst run. cbn [fst snd browser app session unlockError unlocking
                           vault_store salt_item].
  rewrite Happ. cbn [withSession session unlockError unlocking app].
  rewrite Hrec. unfold recordFor. cbn [browser entropy].
  split; [reflexivity|]. split.
  - destruct Hpers as [c [t [u [Hi [Ha Hs]]]]]. exists c, t, u.
    cbn [salt_item]. rewrite Hitem. cbn [browser salt_item]. auto.
  - repeat split; reflexivity.
Qed.

(** The [try] block on a browser that holds the record of a vault under
    the key of the passphrase. *)
Lemma unlockAttempt_stored passphrase p salt iv vault :
  aes_gcm_correct -> json_serializable vault ->
  persistedSalt (browser p) salt ->
  vault_store (browser p) (str "data")
  = Some (VaultRecord.mk (str "data")
            (AES_GCM_encrypt
               (PBKDF2_SHA256_AES256 (TextEncoder_encode passphrase) salt
                                     iterations)
               iv (TextEncoder_encode (JSON_stringify vault)))
            iv 1) ->
  idb_faults (browser p) 0%nat = false ->
  fst (unlockAttempt passphrase p) = inr tt
  /\ session (app (snd (unlockAttempt passphrase p)))
     = Some (Session.mk
               (PBKDF2_SHA256_AES256 (TextEncoder_encode passphrase) salt
                                     iterations)
               vault)
  /\ unlockError (app (snd (unlockAttempt passphrase p))) = unlockError (app p)
  /\ unlocking (app (snd (unlockAttempt passphrase p))) = unlocking (app p).
Proof.
  intros Haes Hjson Hpers Hrec Hf0.
  remember (unlockAttempt passphrase p) as run eqn:Hrun.
  unfold unlockAttempt, bind, lift in Hrun.
  rewrite (getOrCreateSalt_persisted Hpers) in Hrun.
  unfold deriveKey, ret in Hrun. cbn [browser app fst snd] in Hrun.
  unfold loadVault, idb_request in Hrun.
  rewrite Hf0 in Hrun.
  cbn [browser app fst snd vault_store] in Hrun.
  rewrite Hrec in Hrun.
  cbn [browser app fst snd VaultRecord.ciphertext VaultRecord.iv] in Hrun.
  rewrite (decryptVault_of_encrypted _ _ _ Haes Hjson) in Hrun.
  unfold initialDraft, bind, Date_now_toISOString, ret, setDraft, setSession,
    setState in Hrun.
  cbn [browser app fst snd] in Hrun.
  subst run. cbn [fst snd app session unlockError unlocking].
  repeat split; reflexivity.
Qed.

(** [handleUnlock] around a [try] block that returns. *)
Lemma handleUnlock_returns passphrase p :
  let p0 := mkPage (browser p)
              (mkApp (session (app p)) true None (ocrProgress (app p))
                     (ocrText (app p)) (lastUploadedName (app p))
                     (saveImage (app p)) (draft (app p))
                     (expandedImages (app p))) in
  fst (unlockAttempt passphrase p0) = inr tt ->
  fst (handleUnlock passphrase p) = inr tt
  /\ browser (snd (handleUnlock passphrase p))
     = browser (snd (unlockAttempt passphrase p0))
  /\ session (app (snd (handleUnlock passphrase p)))
     = session (app (snd (unlockAttempt passphrase p0)))
  /\ unlockError (app (snd (handleUnlock passphrase p)))
     = unlockError (app (snd (unlockAttempt passphrase p0)))
  /\ unlocking (app (snd (handleUnlock passphrase p))) = false.
Proof.
  intros p0 Hok.
  remember (handleUnlock passphrase p) as run eqn:Hrun.
  unfold handleUnlock, bind, setUnlockError, setUnlocking, setState,
    try_finally, try_catch in Hrun.
  cbn [browser app fst snd session unlocking unlockError ocrProgress ocrText
       lastUploadedName saveImage draft expandedImages] in Hrun.
  fold p0 in Hrun.
  destruct (unlockAttempt passphrase p0) as [r q].
  cbn [fst snd] in Hok |- *. subst r. subst run.
  cbn [fst snd browser app session unlockError unlocking].
  repeat split; reflexivity.
Qed.

End Unlock.

(** C4: the first unlock.  When [loadVault] finds no record (and the write
    that follows goes through), [handleUnlock] builds the vault with no
    receipt and the default categories, encrypts it under the key derived
    from the passphrase and the persisted salt, stores it as the record
    [data], and holds it in the session; any later unlock with the same
    passphrase on that storage decrypts the record to the same vault. *)
Theorem first_unlock_bootstrap
        {P : Platform} (passphrase : jsstring) (p : Page) :
  aes_gcm_correct ->
  json_serializable createVault ->
  base64_correct ->
  saltReadable (browser p) ->
  fst (loadVault (browser p)) = inr None ->
  idb_faults (browser p) 1%nat = false ->
  exists salt iv,
    let key := PBKDF2_SHA256_AES256 (TextEncoder_encode passphrase) salt
                                    iterations in
    let record :=
      VaultRecord.mk (str "data")
        (AES_GCM_encrypt key iv (TextEncoder_encode (JSON_stringify createVault)))
        iv 1 in
    let p1 := snd (handleUnlock passphrase p) in
    fst (handleUnlock passphrase p) = inr tt
    /\ Vault.receipts createVault = []
    /\ Vault.categories createVault = defaultCategories
    /\ persistedSalt (browser p1) salt
    /\ vault_store (browser p1) (str "data") = Some record
    /\ session (app p1) = Some (Session.mk key createVault)
    /\ unlockError (app p1) = None
    /\ forall p2,
         salt_item (browser p2) = salt_item (browser p1) ->
         vault_store (browser p2) (str "data") = Some record ->
         idb_faults (browser p2) 0%nat = false ->
         fst (handleUnlock passphrase p2) = inr tt
         /\ session (app (snd (handleUnlock passphrase p2)))
            = Some (Session.mk key createVault)
         /\ unlockError (app (snd (handleUnlock passphrase p2))) = None.
Proof.
  intros Haes Hjson Hb64 Hread Hload Hf1.
  assert (Hf0 : idb_faults (browser p) 0%nat = false).
  { unfold loadVault, idb_request in Hload.
    destruct (idb_faults (browser p) 0%nat); [discriminate|reflexivity]. }
  assert (Hnone : vault_store (browser p) (str "data") = None).
  { unfold loadVault, idb_request in Hload. rewrite Hf0 in Hload.
    cbn [fst vault_store] in Hload. injection Hload as Hload. exact Hload. }
  set (p0 := mkPage (browser p)
               (mkApp (session (app p)) true None (ocrProgress (app p))
                      (ocrText (app p)) (lastUploadedName (app p))
                      (saveImage (app p)) (draft (app p))
                      (expandedImages (app p)))).
  destruct (@unlockAttempt_first_run P passphrase p0 Hb64 Hread Hnone Hf0 Hf1)
    as [salt [iv [Hres [Hpers [Hsess [Herr [_ Hrec]]]]]]].
  destruct (@handleUnlock_returns P passphrase p Hres)
    as [Hret [Hbrowser [Hsession [Herror _]]]].
  exists salt, iv. cbv zeta.
  split; [exact Hret|].
  split; [reflexivity|]. split; [reflexivity|].
  rewrite Hbrowser, Hsession, Herror.
  split; [exact Hpers|]. split; [exact Hrec|]. split; [exact Hsess|].
  split; [exact Herr|].
  intros p2 Hitem2 Hrec2 Hfault2.
  set (q0 := mkPage (browser p2)
               (mkApp (session (app p2)) true None (ocrProgress (app p2))
                      (ocrText (app p2)) (lastUploadedName (app p2))
                      (saveImage (app p2)) (draft (app p2))
                      (expandedImages (app p2)))).
  assert (Hpers2 : persistedSalt (browser q0) salt).
  { destruct Hpers as [c [t [u [Hi [Ha Hs]]]]]. exists c, t, u.
    cbn [q0 browser]. rewrite Hitem2. auto. }
  destruct (@unlockAttempt_stored P passphrase q0 salt iv createVault
              Haes Hjson Hpers2 Hrec2 Hfault2)
    as [Hres2 [Hsess2 [Herr2 _]]].
  destruct (@handleUnlock_returns P passphrase p2 Hres2)
    as [Hret2 [_ [Hsession2 [Herror2 _]]]].
  rewrite Hsession2, Herror2.
  split; [exact Hret2|]. split; [exact Hsess2|exact Herr2].
Qed.

Section ImportedReceiptsFacts.

Lemma importedReceipts_length clock uuids rows :
  List.length (importedReceipts clock uuids rows) = List.length rows.
Proof.
  revert clock uuids. induction rows as [|row rows IH]; intros; [reflexivity|].
  cbn [importedReceipts List.length]. rewrite IH. reflexivity.
Qed.

(** The receipt at an index comes from the kept row at that index, the
    clock reading and the UUID of that index. *)
Lemma importedReceipts_nth rows : forall clock uuids i receipt,
  nth_error (importedReceipts clock uuids rows) i = Some receipt ->
  exists row,
    nth_error rows i = Some row
    /\ receipt = importedReceipt (clock i) (uuids i) row.
Proof.
  induction rows as [|row rows IH]; intros clock uuids i receipt H.
  - destruct i; discriminate.
  - destruct i as [|i].
    + cbn in H. injection H as <-. exists row. split; reflexivity.
    + cbn [importedReceipts nth_error] in H.
      destruct (IH _ _ _ _ H) as [row' [Hrow Hreceipt]].
      exists row'. split; [exact Hrow|exact Hreceipt].
Qed.

Lemma importedReceipts_ids rows : forall clock uuids,
  map Receipt.id (importedReceipts clock uuids rows)
  = map uuids (seq 0 (List.length rows)).
Proof.
  induction rows as [|row rows IH]; intros clock uuids; [reflexivity|].
  cbn [importedReceipts map List.length seq Receipt.id importedReceipt].
  rewrite IH. rewrite <- seq_shift, map_map. reflexivity.
Qed.

Lemma NoDup_map_injective {A B} (f : A -> B) l :
  (forall x y, f x = f y -> x = y) -> NoDup l -> NoDup (map f l).
Proof.
  intros Hinj Hnd. induction Hnd as [|x l Hx Hnd IH]; [constructor|].
  cbn [map]. constructor; [|exact IH].
  intros Hin. apply in_map_iff in Hin. destruct Hin as [y [Hy Hin]].
  apply Hinj in Hy. subst y. contradiction.
Qed.

End ImportedReceiptsFacts.

Section ImportCaller.
Context {P : Platform}.

(** [handleImportCsv] when the write goes through: what was imported is
    put in front of the receipts of the session. *)
Lemma handleImportCsv_stored text p s receipts :
  session (app p) = Some s ->
  idb_faults (browser p) 0%nat = false ->
  fst (importCsvToReceipts text (browser p)) = inr receipts ->
  fst (handleImportCsv text p) = inr tt
  /\ session (app (snd (handleImportCsv text p)))
     = Some (Session.mk (Session.key s)
               (Vault.mk (receipts ++ Vault.receipts (Session.vault s))
                         (Vault.categories (Session.vault s)))).
Proof.
  intros Hs Hfault Himport.
  remember (handleImportCsv text p) as run eqn:Hrun.
  unfold handleImportCsv, bind, render, lift in Hrun.
  destruct (importCsvToReceipts_run text (browser p)) as [_ Hsame].
  destruct (importCsvToReceipts text (browser p)) as [r w'].
  cbn [fst snd] in Himport, Hsame. subst r.
  destruct Hsame as [_ [_ [Hfaults _]]].
  cbn [app] in Hrun. rewrite Hs in Hrun.
  match type of Hrun with
  | context [persistVault ?v ?k ?q] =>
      destruct (@persistVault_stored P v k q) as [Hres [Happ _]];
      [ cbn [browser]; rewrite Hfaults; exact Hfault
      | destruct (persistVault v k q) as [r q'];
        cbn [fst snd] in Hres, Happ; subst r ]
  end.
  subst run. cbn [fst snd]. rewrite Happ. split; reflexivity.
Qed.

End ImportCaller.

(** What the import returns, row by row: the rows it keeps are the first of
    each key text ([rowKey]), in the order of the text; each Receipt takes the
    next UUID and the clock reading of its construction as both timestamps and
    has no line item; [handleImportCsv] puts the imported receipts in front
    of the receipts of the session, as they are. *)
Theorem importCsvToReceipts_groups_by_key
        {P : Platform} (csv : jsstring) (p : Page) (s : Session.t P) :
  session (app p) = Some s ->
  idb_faults (browser p) 0%nat = false ->
  exists kept receipts,
    fst (importCsvToReceipts csv (browser p)) = inr receipts
    (* one kept row per distinct key, the first that bears it *)
    /\ NoDup (map rowKey kept)
    /\ (forall row, In row (parsedRows csv) ->
                    In (rowKey row) (map rowKey kept))
    /\ (forall row, In row kept ->
          exists before after,
            parsedRows csv = before ++ row :: after
            /\ forall x, In x before -> rowKey x <> rowKey row)
    (* one Receipt per kept row *)
    /\ List.length receipts = List.length kept
    /\ (forall i receipt,
          nth_error receipts i = Some receipt ->
          exists row,
            nth_error kept i = Some row
            /\ receipt = importedReceipt (clock (browser p) i)
                                         (uuids (browser p) i) row
            /\ Receipt.id receipt = uuids (browser p) i
            /\ Receipt.createdAt receipt = clock (browser p) i
            /\ Receipt.updatedAt receipt = clock (browser p) i
            /\ Receipt.lineItems receipt = []
            /\ Receipt.total receipt = Row.total row
            /\ Receipt.note receipt = Row.note row)
    (* the ids are the UUIDs drawn, which differ when the source never
       repeats *)
    /\ map Receipt.id receipts
       = map (uuids (browser p)) (seq 0 (List.length receipts))
    /\ ((forall i j, uuids (browser p) i = uuids (browser p) j -> i = j) ->
        NoDup (map Receipt.id receipts))
    (* the caller *)
    /\ fst (handleImportCsv csv p) = inr tt
    /\ option_map (fun s' => Vault.receipts (Session.vault s'))
                  (session (app (snd (handleImportCsv csv p))))
       = Some (receipts ++ Vault.receipts (Session.vault s)).
Proof.
  intros Hs Hfault.
  destruct (importCsvToReceipts_run csv (browser p)) as [Hrun _].
  exists (firstOfKey [] (parsedRows csv)).
  eexists. split; [exact Hrun|].
  split; [apply firstOfKey_NoDup|].
  split.
  { intros row Hin.
    destruct (firstOfKey_covers (parsedRows csv) [] row Hin) as [[]|H].
    exact H. }
  split.
  { intros row Hin. apply firstOfKey_first in Hin. destruct Hin as [_ H].
    exact H. }
  split; [apply importedReceipts_length|].
  split.
  { intros i receipt Hnth.
    destruct (importedReceipts_nth _ _ _ _ Hnth) as [row [Hrow Heq]].
    exists row. subst receipt. repeat split. exact Hrow. }
  split.
  { rewrite importedReceipts_ids, importedReceipts_length. reflexivity. }
  split.
  { intros Hinj. rewrite importedReceipts_ids.
    apply NoDup_map_injective; [exact Hinj|apply seq_NoDup]. }
  destruct (@handleImportCsv_stored P csv p s _ Hs Hfault Hrun) as [Hres Hsess].
  split; [exact Hres|]. rewrite Hsess. reflexivity.
Qed.

(** The import does not give one Receipt per distinct (date, store, total,
    note): the count of the receipts is not always the count of the distinct
    rows. *)
Lemma importCsvToReceipts_groups_by_key_counterexample :
  ~ (forall (csv : jsstring) (w : Browser) (receipts : list Receipt.t),
        fst (importCsvToReceipts csv w) = inr receipts ->
        List.length receipts
        = List.length (nodup Row_eq_dec (parsedRows csv))).
Proof.
  intros H.
  specialize (H (str "a||b,c" ++ [LF] ++ str "a,b||c")
                (mkBrowser (fun _ => []) (fun _ => []) (fun _ => Byte.x00) None
                           (fun _ => None) (fun _ => false))
                _ eq_refl).
  vm_compute in H. discriminate.
Qed.

(** C7 at the failing input: the text of the two lines a||b,c and a,b||c.
    Its two rows differ in date and in store, yet the key text of both is
    a||b||c||0||, so the import merges them and returns one Receipt, built
    from the first row; grouping by date, store, total and note, as the
    comment of the code says, gives two. *)
Example importCsvToReceipts_merges_distinct_rows (w : Browser) :
  let csv := str "a||b,c" ++ [LF] ++ str "a,b||c" in
  let row1 := Row.mk (str "a||b") (str "c") Num.zero None in
  let row2 := Row.mk (str "a") (str "b||c") Num.zero None in
  parsedRows csv = [row1; row2]
  /\ row1 <> row2
  /\ rowKey row1 = str "a||b||c||0||"
  /\ rowKey row2 = str "a||b||c||0||"
  /\ fst (importCsvToReceipts csv w)
     = inr [importedReceipt (clock w 0%nat) (uuids w 0%nat) row1]
  /\ List.length (nodup Row_eq_dec (parsedRows csv)) = 2%nat.
Proof.
  cbv zeta.
  assert (Hrows : parsedRows (str "a||b,c" ++ [LF] ++ str "a,b||c")
                  = [Row.mk (str "a||b") (str "c") Num.zero None;
                     Row.mk (str "a") (str "b||c") Num.zero None])
    by (vm_compute; reflexivity).
  split; [exact Hrows|].
  split; [discriminate|].
  split; [vm_compute; reflexivity|].
  split; [vm_compute; reflexivity|].
  split.
  - destruct (importCsvToReceipts_run (str "a||b,c" ++ [LF] ++ str "a,b||c") w)
      as [Hres _].
    rewrite Hres, Hrows. reflexivity.
  - rewrite Hrows. vm_compute. reflexivity.
Qed.

Section ToCsvFacts.

Lemma existsb_orb {A} (f g : A -> bool) l :
  existsb (fun x => f x || g x) l = existsb f l || existsb g l.
Proof.
  induction l as [|x l IH]; [reflexivity|]. cbn [existsb]. rewrite IH.
  destruct (f x), (g x), (existsb f l), (existsb g l); reflexivity.
Qed.

Lemma existsb_eqb_sym (q : code_unit) s :
  existsb (N.eqb q) s = existsb (fun c => N.eqb c q) s.
Proof.
  induction s as [|c s IH]; [reflexivity|]. cbn [existsb].
  rewrite IH, (N.eqb_sym q c). reflexivity.
Qed.

Lemma needsQuoting_spec s :
  needsQuoting s
  = existsb (fun c => N.eqb c COMMA || N.eqb c QUOTE || N.eqb c LF) s.
Proof.
  unfold needsQuoting, JS.includes_unit. rewrite !existsb_orb.
  rewrite !existsb_eqb_sym.
  destruct (existsb (fun c => N.eqb c QUOTE) s),
    (existsb (fun c => N.eqb c COMMA) s),
    (existsb (fun c => N.eqb c LF) s); reflexivity.
Qed.

Lemma escapeCell_string s : escapeCell (VString s) = CsvFormat.quoted s.
Proof.
  unfold escapeCell, CsvFormat.quoted, String_of.
  rewrite needsQuoting_spec. reflexivity.
Qed.

Lemma escapeCell_number x :
  escapeCell (VNumber x) = CsvFormat.quoted (Num.to_string x).
Proof.
  unfold escapeCell, CsvFormat.quoted, String_of.
  rewrite needsQuoting_spec. reflexivity.
Qed.

Lemma receiptRows_lines r :
  map (fun row => JS.join [COMMA] (map escapeCell row)) (receiptRows r)
  = map CsvFormat.lineText (CsvFormat.linesOf r).
Proof.
  unfold receiptRows, CsvFormat.linesOf.
  destruct (Receipt.lineItems r) as [|item items].
  - cbn [map]. unfold CsvFormat.lineText, CsvFormat.lineOf, CsvFormat.columns.
    cbn [map CsvFormat.date CsvFormat.store CsvFormat.store_category
         CsvFormat.item_name CsvFormat.item_category CsvFormat.quantity
         CsvFormat.unit_price CsvFormat.subtotal CsvFormat.receipt_total
         CsvFormat.note].
    rewrite !escapeCell_string, escapeCell_number. reflexivity.
  - rewrite !map_map. apply map_ext. intros line.
    unfold CsvFormat.lineText, CsvFormat.lineOf, CsvFormat.columns.
    cbn [map CsvFormat.date CsvFormat.store CsvFormat.store_category
         CsvFormat.item_name CsvFormat.item_category CsvFormat.quantity
         CsvFormat.unit_price CsvFormat.subtotal CsvFormat.receipt_total
         CsvFormat.note].
    rewrite !escapeCell_string, !escapeCell_number. reflexivity.
Qed.

Lemma flat_map_receiptRows_lines receipts :
  map (fun row => JS.join [COMMA] (map escapeCell row))
      (flat_map receiptRows receipts)
  = map CsvFormat.lineText (flat_map CsvFormat.linesOf receipts).
Proof.
  induction receipts as [|r receipts IH]; [reflexivity|].
  cbn [flat_map]. rewrite !map_app, IH, receiptRows_lines. reflexivity.
Qed.

Lemma toCsv_text receipts : toCsv receipts = CsvFormat.text receipts.
Proof.
  unfold toCsv, CsvFormat.text, csvRows. cbn [map].
  rewrite flat_map_receiptRows_lines.
  replace (JS.join [COMMA] (map escapeCell header)) with CsvFormat.headerText
    by (vm_compute; reflexivity).
  reflexivity.
Qed.

Lemma receiptRows_length r :
  List.length (receiptRows r) = CsvFormat.lineCount r.
Proof.
  unfold receiptRows, CsvFormat.lineCount.
  destruct (Receipt.lineItems r); [reflexivity|]. apply length_map.
Qed.

Lemma flat_map_length_sum {A B} (f : A -> list B) (n : A -> nat) l :
  (forall x, List.length (f x) = n x) ->
  List.length (flat_map f l) = list_sum (map n l).
Proof.
  intros H. induction l as [|x l IH]; [reflexivity|].
  cbn [flat_map map list_sum]. rewrite length_app, H, IH. reflexivity.
Qed.

End ToCsvFacts.

(** C6: [toCsv] writes the text of the format: the header line with the ten
    column names in their order, then for each receipt one line per line
    item with the fields of the receipt repeated, or one line with blank item
    fields when it has none; every field that holds a comma, a double quote
    or a line feed is wrapped in double quotes with its quotes doubled. *)
Theorem toCsv_format (receipts : list Receipt.t) :
  toCsv receipts = CsvFormat.text receipts
  /\ hd_error (csvRows receipts) = Some header
  /\ map String_of header
     = map str ["date"; "store"; "store_category"; "item_name";
                "item_category"; "quantity"; "unit_price"; "subtotal";
                "receipt_total"; "note"]%string
  /\ List.length (csvRows receipts)
     = S (list_sum (map CsvFormat.lineCount receipts))
  /\ Forall (fun row => List.length row = 10%nat) (csvRows receipts)
  /\ (forall r, Receipt.lineItems r = [] ->
        map (map String_of) (receiptRows r)
        = [[Receipt.visitedAt r; Receipt.storeName r;
            orEmpty (Receipt.category r); []; []; []; []; [];
            Num.to_string (Receipt.total r); orEmpty (Receipt.note r)]])
  /\ (forall r, Receipt.lineItems r <> [] ->
        map (map String_of) (receiptRows r)
        = map (fun item =>
                 [Receipt.visitedAt r; Receipt.storeName r;
                  orEmpty (Receipt.category r);
                  LineItem.name item; LineItem.category item;
                  Num.to_string (LineItem.quantity item);
                  Num.to_string (LineItem.price item);
                  Num.to_string (Num.mul (LineItem.price item)
                                         (LineItem.quantity item));
                  Num.to_string (Receipt.total r); orEmpty (Receipt.note r)])
              (Receipt.lineItems r))
  /\ (forall value,
        let s := match value with
                 | VUndefined | VNull => []
                 | _ => String_of value
                 end in
        escapeCell value
        = if JS.includes_unit s COMMA || JS.includes_unit s QUOTE
             || JS.includes_unit s LF
          then [QUOTE] ++ doubled s ++ [QUOTE]
          else s).
Proof.
  split; [apply toCsv_text|].
  split; [reflexivity|].
  split; [reflexivity|].
  split.
  { unfold csvRows. cbn [List.length]. f_equal.
    apply flat_map_length_sum. apply receiptRows_length. }
  split.
  { unfold csvRows. constructor; [reflexivity|].
    apply Forall_flat_map. apply Forall_forall. intros r _.
    unfold receiptRows. destruct (Receipt.lineItems r) as [|item items].
    - repeat constructor.
    - apply Forall_map. apply Forall_forall. intros line _. reflexivity. }
  split.
  { intros r Hnone. unfold receiptRows. rewrite Hnone. reflexivity. }
  split.
  { intros r Hsome. unfold receiptRows.
    destruct (Receipt.lineItems r) as [|item items]; [congruence|].
    rewrite map_map. apply map_ext. intros line. reflexivity. }
  intros value s. subst s. unfold escapeCell, needsQuoting, doubled.
  destruct (JS.includes_unit _ QUOTE), (JS.includes_unit _ COMMA),
    (JS.includes_unit _ LF); reflexivity.
Qed.

(** ** The totals the import and the save produce *)

Section Totals.

Lemma or_else_zero_not_NaN x : Num.or_else x Num.zero <> NaN.
Proof.
  unfold Num.or_else. destruct (Num.truthy x) eqn:Ht.
  - intros ->. discriminate.
  - discriminate.
Qed.

Lemma rowTotal_not_NaN cols : rowTotal cols <> NaN.
Proof. apply or_else_zero_not_NaN. Qed.

(** An unparsable total cell gives 0. *)
Lemma rowTotal_unparsable cols cell :
  totalCell cols = Some cell -> Num.of_string cell = NaN ->
  rowTotal cols = Num.zero.
Proof.
  unfold totalCell, rowTotal. intros Hcell Hnan.
  destruct (nth_error cols 6) as [c|].
  - injection Hcell as ->. rewrite Hnan. reflexivity.
  - rewrite Hcell, Hnan. reflexivity.
Qed.

Lemma importedReceipts_totals_not_NaN rows : forall clock uuids,
  Forall (fun row => Row.total row <> NaN) rows ->
  Forall (fun r => Receipt.total r <> NaN) (importedReceipts clock uuids rows).
Proof.
  induction rows as [|row rows IH]; intros clock uuids H; [constructor|].
  inversion H; subst. cbn [importedReceipts]. constructor; [assumption|].
  apply IH. assumption.
Qed.

Lemma parsedRows_totals_not_NaN csv :
  Forall (fun row => Row.total row <> NaN) (parsedRows csv).
Proof.
  unfold parsedRows. destruct (csvLines csv) as [|line0 lines];
    [constructor|].
  apply Forall_map. apply Forall_forall. intros line _.
  apply rowTotal_not_NaN.
Qed.

Lemma firstOfKey_incl rows : forall seen row,
  In row (firstOfKey seen rows) -> In row rows.
Proof.
  intros seen row Hin. apply firstOfKey_first in Hin.
  destruct Hin as [_ [pre [post [-> _]]]].
  apply in_or_app. right. left. reflexivity.
Qed.

Lemma imported_totals_not_NaN csv w receipts :
  fst (importCsvToReceipts csv w) = inr receipts ->
  Forall (fun r => Receipt.total r <> NaN) receipts.
Proof.
  intros Hrun. destruct (importCsvToReceipts_run csv w) as [Hres _].
  rewrite Hres in Hrun. injection Hrun as <-.
  apply importedReceipts_totals_not_NaN.
  apply Forall_forall. intros row Hin. apply firstOfKey_incl in Hin.
  pose proof (parsedRows_totals_not_NaN csv) as Hall.
  rewrite Forall_forall in Hall. apply Hall. exact Hin.
Qed.

(** When the text has no data line. *)
Lemma parsedRows_nil_iff csv :
  parsedRows csv = [] <->
  csvLines csv = [] \/
  exists line0,
    csvLines csv = [line0]
    /\ JS.includes (JS.toLowerCase line0) (str "store") = true.
Proof.
  unfold parsedRows, dataLinesOf.
  destruct (csvLines csv) as [|line0 lines].
  - split; [left; reflexivity|reflexivity].
  - destruct (JS.includes (JS.toLowerCase line0) (str "store")) eqn:Hhdr.
    + cbn [skipn]. destruct lines as [|line1 lines].
      * split; [|reflexivity]. intros _. right. exists line0. auto.
      * split; [discriminate|].
        intros [H|[l [H _]]]; discriminate.
    + split; [discriminate|].
      intros [H|[l [H Hl]]]; [discriminate|].
      injection H as <-. congruence.
Qed.

End Totals.

(** C8 (as amended): [importCsvToReceipts] returns on every text and never
    throws; a total cell that is no number gives the total 0, and no total
    is NaN; the list it returns is empty exactly when the text has no data
    line, that is no non-blank line, or one non-blank line that names the
    column store.  (Any other text gives at least one Receipt, be it a CSV of
    the export or not.) *)
Theorem importCsvToReceipts_tolerant (csv : jsstring) (w : Browser) :
  exists receipts,
    fst (importCsvToReceipts csv w) = inr receipts
    /\ Forall (fun r => Receipt.total r <> NaN) receipts
    /\ (forall line cell,
          totalCell (parseCsvLine line) = Some cell ->
          Num.of_string cell = NaN ->
          Row.total (parseRow line) = Num.zero)
    /\ (receipts = [] <-> parsedRows csv = [])
    /\ (parsedRows csv = [] <->
        csvLines csv = [] \/
        exists line0,
          csvLines csv = [line0]
          /\ JS.includes (JS.toLowerCase line0) (str "store") = true).
Proof.
  destruct (importCsvToReceipts_run csv w) as [Hres _].
  eexists. split; [exact Hres|].
  split; [apply (@imported_totals_not_NaN csv w); exact Hres|].
  split; [intros line cell; apply rowTotal_unparsable|].
  split; [|apply parsedRows_nil_iff].
  rewrite <- firstOfKey_nil_iff.
  split.
  - intros H. apply (f_equal (@List.length _)) in H.
    rewrite importedReceipts_length in H.
    destruct (firstOfKey [] (parsedRows csv)); [reflexivity|discriminate].
  - intros ->. reflexivity.
Qed.

Section ExportShape.

(** What [toCsv] writes starts with the header line. *)
Lemma toCsv_starts_with_header receipts :
  exists rest, toCsv receipts = CsvFormat.headerText ++ rest.
Proof.
  rewrite toCsv_text. unfold CsvFormat.text.
  destruct (map CsvFormat.lineText (flat_map CsvFormat.linesOf receipts))
    as [|l ls].
  - exists []. cbn [JS.join]. rewrite app_nil_r. reflexivity.
  - eexists. cbn [JS.join]. reflexivity.
Qed.

End ExportShape.

(** C8, as stated, fails on a text that is no CSV of the export: the one
    line hello world is taken as a data line and gives one Receipt. *)
Lemma importCsvToReceipts_tolerant_counterexample :
  ~ (forall (csv : jsstring) (w : Browser),
        (forall receipts, csv <> toCsv receipts) ->
        fst (importCsvToReceipts csv w) = inr []).
Proof.
  intros H.
  specialize (H (str "hello world")
                (mkBrowser (fun _ => []) (fun _ => []) (fun _ => Byte.x00) None
                           (fun _ => None) (fun _ => false))).
  assert (Hshape : forall receipts, str "hello world" <> toCsv receipts).
  { intros receipts Heq.
    destruct (toCsv_starts_with_header receipts) as [rest Hrest].
    rewrite Hrest in Heq. vm_compute in Heq. discriminate. }
  specialize (H Hshape). vm_compute in H. discriminate.
Qed.

Section SaveReceipt.
Context {P : Platform}.

(** [handleSaveReceipt] when the write goes through. *)
Lemma handleSaveReceipt_stored p s :
  session (app p) = Some s ->
  idb_faults (browser p) 0%nat = false ->
  fst (handleSaveReceipt p) = inr tt
  /\ session (app (snd (handleSaveReceipt p)))
     = Some (Session.mk (Session.key s)
               (Vault.mk
                  (savedReceipt (app p) (clock (browser p) 0%nat)
                                (uuids (browser p) 0%nat)
                     :: Vault.receipts (Session.vault s))
                  (Vault.categories (Session.vault s)))).
Proof.
  intros Hs Hfault.
  remember (handleSaveReceipt p) as run eqn:Hrun.
  unfold handleSaveReceipt, bind, render, lift in Hrun.
  rewrite Hs in Hrun.
  unfold Date_now_toISOString, randomUUID in Hrun.
  cbn [browser app fst snd clock uuids] in Hrun.
  match type of Hrun with
  | context [persistVault ?v ?k ?q] =>
      destruct (@persistVault_stored P v k q) as [Hres [Happ _]];
      [ exact Hfault
      | destruct (persistVault v k q) as [r q'];
        cbn [fst snd] in Hres, Happ; subst r ]
  end.
  unfold initialDraft, bind, Date_now_toISOString, ret, setDraft, setOcrText,
    setOcrProgress, setLastUploadedName, setState in Hrun.
  cbn [browser app fst snd] in Hrun.
  subst run. cbn [fst snd app session]. rewrite Happ.
  split; reflexivity.
Qed.

End SaveReceipt.

(** C9 (as amended): the total of every Receipt that enters the vault, by
    [handleSaveReceipt] or by [importCsvToReceipts], is the number its text
    reads as, or 0 when the text reads as no number or as zero: it is never
    NaN.  (Neither path checks its sign or that it is whole.) *)
Theorem receipt_total_is_coerced
        {P : Platform} (csv : jsstring) (p : Page) (s : Session.t P) :
  session (app p) = Some s ->
  idb_faults (browser p) 0%nat = false ->
  (exists receipt,
      option_map (fun s' => Vault.receipts (Session.vault s'))
                 (session (app (snd (handleSaveReceipt p))))
      = Some (receipt :: Vault.receipts (Session.vault s))
      /\ Receipt.total receipt
         = Num.or_else (Num.of_string (ReceiptDraft.total (draft (app p))))
                       Num.zero
      /\ Receipt.total receipt <> NaN)
  /\ (exists receipts,
        fst (importCsvToReceipts csv (browser p)) = inr receipts
        /\ Forall (fun r => Receipt.total r <> NaN) receipts
        /\ forall r, In r receipts ->
             exists line,
               In line (csvLines csv) /\
               Receipt.total r = Num.or_else
                                   (match totalCell (parseCsvLine line) with
                                    | Some cell => Num.of_string cell
                                    | None => Num.zero
                                    end)
                                   Num.zero).
Proof.
  intros Hs Hfault. split.
  - destruct (@handleSaveReceipt_stored P p s Hs Hfault) as [_ Hsess].
    eexists. rewrite Hsess. cbn [option_map Session.vault Vault.receipts].
    split; [reflexivity|]. cbn [savedReceipt Receipt.total].
    split; [reflexivity|]. apply or_else_zero_not_NaN.
  - destruct (importCsvToReceipts_run csv (browser p)) as [Hres _].
    eexists. split; [exact Hres|].
    split; [apply (@imported_totals_not_NaN csv (browser p)); exact Hres|].
    intros r Hin. apply In_nth_error in Hin. destruct Hin as [i Hi].
    destruct (importedReceipts_nth _ _ _ _ Hi) as [row [Hrow ->]].
    apply nth_error_In in Hrow. apply firstOfKey_incl in Hrow.
    unfold parsedRows in Hrow.
    destruct (csvLines csv) as [|line0 lines]; [contradiction|].
    apply in_map_iff in Hrow. destruct Hrow as [line [<- Hline]].
    exists line. split.
    { unfold dataLinesOf in Hline.
      destruct (JS.includes (JS.toLowerCase line0) (str "store"));
        [right|]; exact Hline. }
    cbn [importedReceipt Receipt.total parseRow Row.total].
    unfold rowTotal, totalCell.
    destruct (nth_error (parseCsvLine line) 6); [reflexivity|].
    destruct (nth_error (parseCsvLine line) 2); reflexivity.
Qed.

(** C9, as stated, fails: a row whose total cell is -5 gives a Receipt whose
    total is -5. *)
Lemma receipt_total_counterexample :
  ~ (forall (csv : jsstring) (w : Browser) (receipts : list Receipt.t),
        fst (importCsvToReceipts csv w) = inr receipts ->
        Forall (fun r => nonNegativeInteger (Receipt.total r)) receipts).
Proof.
  intros H.
  specialize (H (str "2024-05-01,SuperMart,Milk,groceries,1,150,-5,refund")
                (mkBrowser (fun _ => []) (fun _ => []) (fun _ => Byte.x00) None
                           (fun _ => None) (fun _ => false))
                _ eq_refl).
  vm_compute in H. inversion H as [|r rs Hr _]. exact Hr.
Qed.

(** C5 at the failing input: one receipt of 980 yen without line items is
    exported, and the import of that text gives a receipt of the same date
    and store whose total is 0 (the import reads the total from the seventh
    column, where the export writes the unit price). *)
Example export_import_total_lost (w : Browser) :
  let receipt :=
    Receipt.mk (str "r-1") (str "SuperMart") (str "2024-05-01") (Num.of_N 980)
               None None None None []
               (str "2024-05-01T09:00:00.000Z") (str "2024-05-01T09:00:00.000Z") in
  toCsv [receipt]
  = str "date,store,store_category,item_name,item_category,quantity,unit_price,subtotal,receipt_total,note"
    ++ [LF] ++ str "2024-05-01,SuperMart,,,,,,,980,"
  /\ exists imported,
       fst (importCsvToReceipts (toCsv [receipt]) w) = inr [imported]
       /\ Receipt.visitedAt imported = str "2024-05-01"
       /\ Receipt.storeName imported = str "SuperMart"
       /\ Receipt.total imported = Num.zero
       /\ Receipt.total imported <> Receipt.total receipt.
Proof.
  cbv zeta. split; [vm_compute; reflexivity|].
  destruct (importCsvToReceipts_run
              (toCsv [Receipt.mk (str "r-1") (str "SuperMart") (str "2024-05-01")
                        (Num.of_N 980) None None None None []
                        (str "2024-05-01T09:00:00.000Z")
                        (str "2024-05-01T09:00:00.000Z")]) w) as [Hres _].
  eexists. split.
  - rewrite Hres. f_equal.
    match goal with
    | |- context [firstOfKey [] ?rows] =>
        let v := eval vm_compute in (firstOfKey [] rows) in
        change (firstOfKey [] rows) with v
    end.
    cbn [importedReceipts]. reflexivity.
  - vm_compute. repeat split; discriminate.
Qed.

#[local] Existing Instance Sample.platform.

Section SampleLaws.

Lemma sample_aes_gcm_correct : @aes_gcm_correct Sample.platform.
Proof.
  intros key iv data. cbn. unfold Sample.decrypt, Sample.encrypt.
  rewrite (Byte.byte_dec_lb eq_refl). reflexivity.
Qed.

Lemma sample_aes_gcm_authentic : @aes_gcm_authentic Sample.platform.
Proof.
  intros key1 key2 iv data Hne. cbn. unfold Sample.decrypt, Sample.encrypt.
  destruct (Byte.eqb key1 key2) eqn:Heq; [|reflexivity].
  apply Byte.byte_dec_bl in Heq. contradiction.
Qed.

Lemma sample_json_serializable : @json_serializable Sample.platform createVault.
Proof. split; reflexivity. Qed.

Lemma sample_base64_correct : @base64_correct Sample.platform.
Proof.
  intros bs Hne. exists (map Byte.to_N bs). cbn.
  repeat split. destruct bs; [congruence|discriminate].
Qed.

End SampleLaws.

Lemma decryptVault_encryptVault_witness :
  exists ciphertext iv,
    fst (@encryptVault Sample.platform createVault Byte.x07 (Sample.browser false))
    = inr (ciphertext, iv)
    /\ @decryptVault Sample.platform ciphertext iv Byte.x07 (Sample.browser false)
       = (inr createVault, Sample.browser false).
Proof.
  apply (@decryptVault_encryptVault Sample.platform createVault Byte.x07
           (Sample.browser false) (Sample.browser false)).
  - exact sample_aes_gcm_correct.
  - exact sample_json_serializable.
Defined.

Lemma decryptVault_wrong_key_rejects_witness :
  exists ciphertext iv,
    fst (@encryptVault Sample.platform createVault Byte.x07 (Sample.browser false))
    = inr (ciphertext, iv)
    /\ fst (@decryptVault Sample.platform ciphertext iv Byte.x08
              (Sample.browser false))
       = inl AuthenticationError
    /\ forall V',
         fst (@decryptVault Sample.platform ciphertext iv Byte.x08
                (Sample.browser false)) <> inr V'.
Proof.
  apply (@decryptVault_wrong_key_rejects Sample.platform createVault
           Byte.x07 Byte.x08 (Sample.browser false) (Sample.browser false)).
  - exact sample_aes_gcm_authentic.
  - discriminate.
Defined.

Lemma mutate_keeps_session_when_save_fails_witness :
  fst (mutate SaveReceipt (Sample.page true (Some Sample.session)))
  = inl StorageError
  /\ session (app (snd (mutate SaveReceipt
                          (Sample.page true (Some Sample.session)))))
     = Some Sample.session
  /\ vault_store (browser (snd (mutate SaveReceipt
                                  (Sample.page true (Some Sample.session)))))
     = vault_store (browser (Sample.page true (Some Sample.session))).
Proof.
  apply (@mutate_keeps_session_when_save_fails Sample.platform SaveReceipt
           (Sample.page true (Some Sample.session)) Sample.session).
  - reflexivity.
  - reflexivity.
Defined.

Lemma first_unlock_bootstrap_witness :
  exists salt iv,
    let key := @PBKDF2_SHA256_AES256 Sample.platform
                 (@TextEncoder_encode Sample.platform (str "correct-horse"))
                 salt iterations in
    let record :=
      VaultRecord.mk (str "data")
        (@AES_GCM_encrypt Sample.platform key iv
           (@TextEncoder_encode Sample.platform
              (@JSON_stringify Sample.platform createVault)))
        iv 1 in
    let p1 := snd (handleUnlock (str "correct-horse") (Sample.page false None)) in
    fst (handleUnlock (str "correct-horse") (Sample.page false None)) = inr tt
    /\ Vault.receipts createVault = []
    /\ Vault.categories createVault = defaultCategories
    /\ persistedSalt (browser p1) salt
    /\ vault_store (browser p1) (str "data") = Some record
    /\ session (app p1) = Some (Session.mk key createVault)
    /\ unlockError (app p1) = None
    /\ forall p2,
         salt_item (browser p2) = salt_item (browser p1) ->
         vault_store (browser p2) (str "data") = Some record ->
         idb_faults (browser p2) 0%nat = false ->
         fst (handleUnlock (str "correct-horse") p2) = inr tt
         /\ session (app (snd (handleUnlock (str "correct-horse") p2)))
            = Some (Session.mk key createVault)
         /\ unlockError (app (snd (handleUnlock (str "correct-horse") p2))) = None.
Proof.
  apply (@first_unlock_bootstrap Sample.platform (str "correct-horse")
           (Sample.page false None)).
  - exact sample_aes_gcm_correct.
  - exact sample_json_serializable.
  - exact sample_base64_correct.
  - exact I.
  - reflexivity.
  - reflexivity.
Defined.

Lemma receipt_total_is_coerced_witness :
  exists receipt,
    option_map (fun s' => Vault.receipts (Session.vault s'))
      (session (app (snd (handleSaveReceipt
                            (Sample.page false (Some Sample.session))))))
    = Some (receipt :: Vault.receipts (Session.vault Sample.session))
    /\ Receipt.total receipt = Num.of_N 980.
Proof.
  destruct (@receipt_total_is_coerced Sample.platform (str "")
              (Sample.page false (Some Sample.session)) Sample.session
              eq_refl eq_refl)
    as [[receipt [Hsess [Htotal _]]] _].
  exists receipt. split; [exact Hsess|].
  rewrite Htotal. vm_compute. reflexivity.
Defined.

